(** * lighthouse-cli/printer.ts: a shallow embedding and its properties

    The printer turns a [Results] tree into one of three textual reports
    ([pretty], [json], [html]) and delivers the text to standard output or to
    a file.  The embedding follows the TypeScript source function by
    function.  JavaScript numbers are IEEE-754 binary64 values, so they are
    modelled by Rocq's primitive floats; strings are modelled by their UTF-8
    bytes, which is also what [fs.writeFile(..., 'utf8', ...)] stores. *)

From Stdlib Require Import ZArith NArith String Ascii List Bool Floats.
From Stdlib Require Import DecimalString DecimalN DecimalPos DecimalFacts.
From Stdlib Require Import QArith Qpower Qreduction Qfield Lia.
Import ListNotations.

Open Scope string_scope.
Open Scope Z_scope.

(** ** The JavaScript runtime operations the printer calls *)

Module JS.

(** A JavaScript number. *)
Definition number := float.

(** The decimal digits of a non-negative integer. *)
Definition decimal (z : Z) : string :=
  NilZero.string_of_uint (N.to_uint (Z.to_N z)).

Fixpoint repeat_string (n : nat) (s : string) : string :=
  match n with
  | O => ""
  | S n' => s ++ repeat_string n' s
  end.

Definition zeros (z : Z) : string := repeat_string (Z.to_nat z) "0".

Definition pow10 (z : Z) : Q := Qpower (10 # 1) z.
Definition pow2 (z : Z) : Q := Qpower (2 # 1) z.

(** [floor_log2 a b] is the integer [l] with [2^l <= a/b < 2^(l+1)], for
    positive [a] and [b]. *)
Definition floor_log2 (a b : Z) : Z :=
  let d := Z.log2 a - Z.log2 b in
  let below := if 0 <=? d then a <? b * 2 ^ d else a * 2 ^ (- d) <? b in
  if below then d - 1 else d.

(** [l] is the integer part of the binary logarithm of [a/b]. *)
Definition log2_frac (a b l : Z) : Prop :=
  b * 2 ^ Z.max l 0 <= a * 2 ^ Z.max (- l) 0 < 2 * b * 2 ^ Z.max l 0.

(** The integer nearest to [num/den], ties going to the even one. *)
Definition div_nearest_even (num den : Z) : Z :=
  let q := num / den in
  match 2 * (num mod den) ?= den with
  | Lt => q
  | Gt => q + 1
  | Eq => if Z.even q then q else q + 1
  end.

(** The binary64 value nearest to the positive fraction [a/b], ties going
    to the even significand, with overflow to infinity and underflow to
    zero; the result is a mantissa and a binary exponent. *)
Definition nearest_double (a b : Z) : spec_float :=
  if a <=? 0 then S754_zero false else
  let ex := Z.max (floor_log2 a b - 52) (-1074) in
  let mant := if 0 <=? ex then div_nearest_even a (b * 2 ^ ex)
              else div_nearest_even (a * 2 ^ (- ex)) b in
  let '(mant, ex) := if mant =? 2 ^ 53 then (2 ^ 52, ex + 1) else (mant, ex) in
  if mant =? 0 then S754_zero false
  else if 971 <? ex then S754_infinity false
  else S754_finite false (Z.to_pos mant) ex.

(** A mantissa and an exponent that are those of a binary64 value. *)
Definition canonical (m : positive) (e : Z) : Prop :=
  bounded prec emax m e = true.

(** The Number value for a positive rational (ECMAScript's conversion of a
    mathematical value to a Number). *)
Definition double_of_Q (q : Q) : spec_float :=
  let r := Qred q in
  nearest_double (Qnum r) (Zpos (Qden r)).

Definition is_finite (m : positive) (e : Z) (f : spec_float) : bool :=
  match f with
  | S754_finite false m' e' => Pos.eqb m m' && Z.eqb e e'
  | _ => false
  end.

(** [s] is a positive integer of [k] decimal digits. *)
Definition has_digits (s k : Z) : bool :=
  (0 <? s) && (Z.of_nat (String.length (decimal s)) =? k).

(** [denotes m e s k n]: [s] has [k] digits and the decimal [s * 10^(n-k)]
    converts to the Number [m * 2^e]. *)
Definition denotes (m : positive) (e : Z) (s k n : Z) : bool :=
  has_digits s k && is_finite m e (double_of_Q (inject_Z s * pow10 (n - k))).

Fixpoint magnitude_below (fuel : nat) (v : Q) (p : Z) : Z :=
  match fuel with
  | O => p
  | S fuel' =>
      if Qle_bool 1 (v * (10 # 1)) then p
      else magnitude_below fuel' (Qred (v * (10 # 1))) (p - 1)
  end.

(** [magnitude v] is the [p] with [10^(p-1) <= v < 10^p]. *)
Definition magnitude (v : Q) : Z :=
  if Qle_bool 1 v
  then Z.of_nat (String.length (decimal (Qnum v / Zpos (Qden v))))
  else magnitude_below 400 v 0.

(** The [k]-digit decimals next to [v] (whose magnitude is [p]) that convert
    back to [m * 2^e], the nearer one first: a pair of the digits [s] and of
    the decimal exponent [n], the value being [s * 10^(n-k)]. *)
Definition digits_of_length (m : positive) (e : Z) (v : Q) (p k : Z)
  : option (Z * Z) :=
  let scaled := Qred (v * pow10 (k - p)) in
  let a := Qnum scaled in
  let b := Zpos (Qden scaled) in
  let lo := a / b in
  let hi := if lo + 1 =? 10 ^ k then (10 ^ (k - 1), p + 1) else (lo + 1, p) in
  let ok_lo := denotes m e lo k p in
  let ok_hi := denotes m e (fst hi) k (snd hi) in
  match ok_lo, ok_hi with
  | true, true =>
      match 2 * (a mod b) ?= b with
      | Lt => Some (lo, p)
      | Gt => Some hi
      | Eq => if Z.even lo then Some (lo, p) else Some hi
      end
  | true, false => Some (lo, p)
  | false, true => Some hi
  | false, false => None
  end.

Fixpoint shortest_from (fuel : nat) (m : positive) (e : Z) (v : Q) (p k : Z)
  : option (Z * Z * Z) :=
  match fuel with
  | O => None
  | S fuel' =>
      match digits_of_length m e v p k with
      | Some (s, n) => Some (s, k, n)
      | None => shortest_from fuel' m e v p (k + 1)
      end
  end.

(** The full decimal expansion of [m * 2^e]. *)
Definition exact_digits (m : positive) (e : Z) : Z * Z * Z :=
  let s := if 0 <=? e then Zpos m * 2 ^ e else Zpos m * 5 ^ (- e) in
  let k := Z.of_nat (String.length (decimal s)) in
  (s, k, k + Z.min e 0).

(** Number::toString, step 5: integers [s], [k], [n] with [k] as small as
    possible such that [s] has [k] digits and [s * 10^(n-k)] converts to the
    number.  The search stops at seventeen digits, which suffice for a
    binary64 value; the full expansion stands behind it. *)
Definition shortest_digits (m : positive) (e : Z) : Z * Z * Z :=
  let v := Qred (inject_Z (Zpos m) * pow2 e) in
  match shortest_from 17 m e v (magnitude v) 1 with
  | Some r => r
  | None => exact_digits m e
  end.

(** The first [n] characters of a string, and the others. *)
Fixpoint take (n : nat) (s : string) : string :=
  match n, s with
  | S n', String c s' => String c (take n' s')
  | _, _ => ""
  end.

Fixpoint drop (n : nat) (s : string) : string :=
  match n, s with
  | S n', String _ s' => drop n' s'
  | _, _ => s
  end.

(** Number::toString, steps 6 to 10: plain digits, a decimal point, leading
    zeros, or exponential notation. *)
Definition layout (s k n : Z) : string :=
  let ds := decimal s in
  if (k <=? n) && (n <=? 21) then ds ++ zeros (n - k)
  else if (0 <? n) && (n <=? 21) then
    take (Z.to_nat n) ds ++ "." ++ drop (Z.to_nat n) ds
  else if (-6 <? n) && (n <=? 0) then "0." ++ zeros (- n) ++ ds
  else
    let ex := n - 1 in
    let tail := "e" ++ (if ex <? 0 then "-" else "+") ++ decimal (Z.abs ex) in
    if k =? 1 then ds ++ tail
    else take 1 ds ++ "." ++ drop 1 ds ++ tail.

(** What a template literal [`${x}`] yields for a number [x]. *)
Definition Number_toString (x : number) : string :=
  match Prim2SF x with
  | S754_nan => "NaN"
  | S754_zero _ => "0"
  | S754_infinity s => if s then "-Infinity" else "Infinity"
  | S754_finite sg m e =>
      let '(s, k, n) := shortest_digits m e in
      (if sg then "-" else "") ++ layout s k n
  end.

(** [x.toFixed(0)]: the nearest integer, the larger one on a tie of the
    absolute value, without decimal point; numbers of absolute value
    [10^21] or more and non-finite numbers print as [Number_toString]. *)
Definition toFixed0 (x : number) : string :=
  match Prim2SF x with
  | S754_finite sg m e =>
      let big := if 0 <=? e then 10 ^ 21 <=? Zpos m * 2 ^ e
                 else 10 ^ 21 * 2 ^ (- e) <=? Zpos m in
      if big then Number_toString x
      else
        let n := if 0 <=? e then Zpos m * 2 ^ e
                 else (2 * Zpos m + 2 ^ (- e)) / 2 ^ (- e + 1) in
        (if sg then "-" else "") ++ decimal n
  | S754_zero _ => "0"
  | _ => Number_toString x
  end.

(** [a > b] on numbers. *)
Definition gt (a b : number) : bool := PrimFloat.ltb b a.

(** Truthiness of a string: only the empty string is falsy. *)
Definition truthy (s : string) : bool :=
  match s with
  | EmptyString => false
  | String _ _ => true
  end.

(** The names every ordinary object inherits from [Object.prototype]. *)
Definition Object_prototype : list string :=
  [ "constructor"; "__defineGetter__"; "__defineSetter__"; "hasOwnProperty";
    "__lookupGetter__"; "__lookupSetter__"; "isPrototypeOf";
    "propertyIsEnumerable"; "toString"; "valueOf"; "__proto__";
    "toLocaleString" ].

Definition inherited (key : string) : bool :=
  existsb (String.eqb key) Object_prototype.

(** Exceptions. *)
Inductive exn : Type :=
| TypeError (message : string)
| Error (message : string)
| SystemError (code : string).

(** The outcome of evaluating an expression or running a function body. *)
Inductive completion (A : Type) : Type :=
| Normal (a : A)
| Throw (e : exn).

Arguments Normal {A} a.
Arguments Throw {A} e.

Definition bind {A B : Type} (c : completion A) (k : A -> completion B)
  : completion B :=
  match c with
  | Normal a => k a
  | Throw e => Throw e
  end.

(** The state a promise ends in. *)
Inductive settlement (A : Type) : Type :=
| Resolved (a : A)
| Rejected (e : exn).

Arguments Resolved {A} a.
Arguments Rejected {A} e.

End JS.

Import JS.

Notation "x <- c ;; k" := (bind c (fun x => k))
  (at level 61, c at next level, right associativity).

(** The escape character and the line feed. *)
Definition ESC : string := String "027"%char "".
Definition LF : string := String "010"%char "".

(** ** Data model *)

(** [enum OutputMode { pretty, json, html }]. *)
Inductive OutputMode : Type := pretty | json | html.

Definition OutputMode_number (m : OutputMode) : Z :=
  match m with
  | pretty => 0
  | json => 1
  | html => 2
  end.

Definition OutputMode_name (m : OutputMode) : string :=
  match m with
  | pretty => "pretty"
  | json => "json"
  | html => "html"
  end.

(** The TypeScript type [Mode] holds the three names only, but the check is
    static: at run time [write] receives whatever string its caller passes. *)
Definition Mode := string.

(** The value of the expression [OutputMode[key]].  A TypeScript enum is an
    ordinary object that maps each name to its number and each number back
    to its name; any other key yields an inherited member of
    [Object.prototype] or [undefined]. *)
Inductive Discriminant : Type :=
| Member (m : OutputMode)
| NameOf (m : OutputMode)
| Inherited (key : string)
| Undefined.

Definition OutputMode_get (key : string) : Discriminant :=
  if String.eqb key "pretty" then Member pretty
  else if String.eqb key "json" then Member json
  else if String.eqb key "html" then Member html
  else if String.eqb key "0" then NameOf pretty
  else if String.eqb key "1" then NameOf json
  else if String.eqb key "2" then NameOf html
  else if inherited key then Inherited key
  else Undefined.

(** The text of [`${OutputMode[outputMode]}`], where [outputMode] is itself
    the result of an enum lookup and is converted to a property key. *)
Definition OutputMode_label (outputMode : Discriminant) : string :=
  match outputMode with
  | Member m => OutputMode_name m
  | NameOf m => decimal (OutputMode_number m)
  | Inherited _ => "undefined"
  | Undefined => "undefined"
  end.

(** [AuditResult.score]: the interface declares a number; the formatter it
    is handed to accepts [boolean | number | string]. *)
Inductive Score : Type :=
| ScoreBoolean (b : bool)
| ScoreNumber (x : number)
| ScoreString (s : string).

Record ExtendedInfo : Type := {
  value : string;
  formatter : string
}.

Record AuditResult : Type := {
  displayValue : string;
  debugString : string;
  score : Score;
  description : string;
  extendedInfo : option ExtendedInfo
}.

(** An entry of [subItems]: an audit result, or the key of one in
    [Results.audits]. *)
Inductive SubItem : Type :=
| Inline (a : AuditResult)
| Reference (key : string).

Record AggregationResultItem : Type := {
  overall : number;
  name : string;
  scored : bool;
  subItems : list SubItem
}.

(** The fields [name] and [score] of [Aggregation]. *)
Record Aggregation : Type := {
  aggregation_name : string;
  aggregation_score : list AggregationResultItem
}.

(** [audits] is an object used as a map from keys to audit results; its own
    properties are listed in the order in which the object enumerates
    them. *)
Record Results : Type := {
  url : string;
  aggregations : list Aggregation;
  audits : list (string * AuditResult);
  lighthouseVersion : string
}.

(** The value of [results.audits[key]]. *)
Inductive Property : Type :=
| Own (a : AuditResult)
| Foreign
| Missing.

Fixpoint own_property (o : list (string * AuditResult)) (key : string)
  : option AuditResult :=
  match o with
  | [] => None
  | (k, a) :: o' => if String.eqb k key then Some a else own_property o' key
  end.

(** An own property wins; otherwise the key may name a member inherited from
    [Object.prototype], an object with none of the [AuditResult] fields;
    otherwise the value is [undefined]. *)
Definition get_audit (o : list (string * AuditResult)) (key : string)
  : Property :=
  match own_property o key with
  | Some a => Own a
  | None => if inherited key then Foreign else Missing
  end.

(** ** The world the printer writes to *)

Inductive LogLevel : Type := warn | info.

Record LogEntry : Type := {
  level : LogLevel;
  component : string;
  message : string
}.

(** Standard output, the files, the diagnostic log, and the file system's
    verdict on a write: [fs_error path data] is the error the write of
    [data] to [path] fails with, if it fails. *)
Record World : Type := {
  stdout : string;
  files : list (string * string);
  log : list LogEntry;
  fs_error : string -> string -> option exn
}.

Fixpoint file_contents (fs : list (string * string)) (path : string)
  : option string :=
  match fs with
  | [] => None
  | (p, data) :: fs' =>
      if String.eqb p path then Some data else file_contents fs' path
  end.

Definition log_add (l : LogLevel) (c m : string) (w : World) : World :=
  {| stdout := stdout w;
     files := files w;
     log := log w ++ [ {| level := l; component := c; message := m |} ];
     fs_error := fs_error w |}.

Definition stdout_write (data : string) (w : World) : World :=
  {| stdout := stdout w ++ data;
     files := files w;
     log := log w;
     fs_error := fs_error w |}.

(** [fs.writeFile(path, data, 'utf8', callback)]: the callback's [err], and
    the file replaced as a whole when there is none.  A write that fails is
    taken to leave the files as they were. *)
Definition fs_writeFile (path data : string) (w : World)
  : option exn * World :=
  match fs_error w path data with
  | Some err => (Some err, w)
  | None =>
      (None,
       {| stdout := stdout w;
          files := (path, data) :: files w;
          log := log w;
          fs_error := fs_error w |})
  end.

(** ** JSON.stringify and JSON.parse

    The json mode returns [JSON.stringify(results, null, 2)].  Both
    functions belong to the runtime; they are embedded after ECMAScript:
    SerializeJSONProperty and QuoteJSONString for the writer, the JSON
    grammar and the correctly rounded conversion of decimals for the
    reader. *)

Module JSON.

(** The values JSON text denotes. *)
#[local] Unset Elimination Schemes.
Inductive jsvalue : Type :=
| JNull
| JBoolean (b : bool)
| JNumber (x : number)
| JString (s : string)
| JArray (elements : list jsvalue)
| JObject (members : list (string * jsvalue)).
#[local] Set Elimination Schemes.

Definition DQUOTE : ascii := "034"%char.

Definition hex_digit (n : N) : ascii :=
  if (n <? 10)%N then ascii_of_N (48 + n) else ascii_of_N (87 + n).

(** QuoteJSONString on one character: the two-character escapes, a
    [\u00xx] escape for the other control characters, the character itself
    otherwise. *)
Definition quote_char (c : ascii) : string :=
  let n := N_of_ascii c in
  if (n =? 8)%N then "\b"
  else if (n =? 9)%N then "\t"
  else if (n =? 10)%N then "\n"
  else if (n =? 12)%N then "\f"
  else if (n =? 13)%N then "\r"
  else if (n =? 34)%N then String "\" (String DQUOTE "")
  else if (n =? 92)%N then "\\"
  else if (n <? 32)%N then
    "\u00" ++ String (hex_digit (n / 16)) (String (hex_digit (n mod 16)) "")
  else String c "".

Fixpoint quote_chars (s : string) : string :=
  match s with
  | EmptyString => ""
  | String c s' => quote_char c ++ quote_chars s'
  end.

Definition quote (s : string) : string :=
  String DQUOTE (quote_chars s ++ String DQUOTE "").

Definition finite (x : number) : bool :=
  match Prim2SF x with
  | S754_zero _ => true
  | S754_finite _ _ _ => true
  | _ => false
  end.

(** SerializeJSONProperty with a non-empty [gap]: [indent] is the current
    indentation, one [gap] deeper inside every array and object. *)
Fixpoint serialize (gap indent : string) (v : jsvalue) {struct v} : string :=
  match v with
  | JNull => "null"
  | JBoolean b => if b then "true" else "false"
  | JNumber x => if finite x then Number_toString x else "null"
  | JString s => quote s
  | JArray elements =>
      let stepback := indent in
      let indent := indent ++ gap in
      match elements with
      | [] => "[]"
      | _ =>
          let separator := "," ++ LF ++ indent in
          "[" ++ LF ++ indent
            ++ String.concat separator (map (serialize gap indent) elements)
            ++ LF ++ stepback ++ "]"
      end
  | JObject members =>
      let stepback := indent in
      let indent := indent ++ gap in
      match members with
      | [] => "{}"
      | _ =>
          let separator := "," ++ LF ++ indent in
          let member := fun kv : string * jsvalue =>
            quote (fst kv) ++ ":" ++ " " ++ serialize gap indent (snd kv) in
          "{" ++ LF ++ indent
            ++ String.concat separator (map member members)
            ++ LF ++ stepback ++ "}"
      end
  end.

(** [JSON.stringify(value, null, 2)]. *)
Definition stringify2 (v : jsvalue) : string := serialize "  " "" v.

(** *** JSON.parse

    The reader the round trip of the json report is stated with. *)

Definition is_digit (c : ascii) : bool :=
  let n := N_of_ascii c in ((48 <=? n) && (n <=? 57))%N.

Definition digit_value (c : ascii) : Z := Z.of_N (N_of_ascii c) - 48.

(** The number a string of decimal digits denotes, after [acc]. *)
Fixpoint digits_value (acc : Z) (s : string) : Z :=
  match s with
  | EmptyString => acc
  | String c s' => digits_value (10 * acc + digit_value c) s'
  end.

(** The longest prefix of digits, and what follows it. *)
Fixpoint span_digits (s : string) : string * string :=
  match s with
  | EmptyString => ("", "")
  | String c s' =>
      if is_digit c
      then let (d, r) := span_digits s' in (String c d, r)
      else ("", s)
  end.

Definition signed (negative : bool) (f : spec_float) : spec_float :=
  match f with
  | S754_zero _ => S754_zero negative
  | S754_infinity _ => S754_infinity negative
  | S754_nan => S754_nan
  | S754_finite _ m e => S754_finite negative m e
  end.

(** The Number for the decimal [mantissa * 10^x10], negated on demand. *)
Definition number_of_decimal (negative : bool) (mantissa x10 : Z) : number :=
  SF2Prim (signed negative (double_of_Q (inject_Z mantissa * pow10 x10))).

(** The integer part of a JSON number: [0], or digits that do not start
    with [0]. *)
Definition valid_int (int : string) : bool :=
  match int with
  | EmptyString => false
  | String c EmptyString => true
  | String c _ => negb (Ascii.eqb c "0")
  end.

(** The optional fraction: a point followed by at least one digit. *)
Definition parse_fraction (s : string) : option (string * string) :=
  match s with
  | String c s' =>
      if Ascii.eqb c "."
      then let (frac, r) := span_digits s' in
           if truthy frac then Some (frac, r) else None
      else Some ("", s)
  | EmptyString => Some ("", s)
  end.

(** The optional exponent: [e] or [E], an optional sign, at least one
    digit. *)
Definition parse_exponent (s : string) : option (Z * string) :=
  match s with
  | String c s' =>
      if Ascii.eqb c "e" || Ascii.eqb c "E"
      then
        let '(negative, s'') :=
          match s' with
          | String c' t =>
              if Ascii.eqb c' "-" then (true, t)
              else if Ascii.eqb c' "+" then (false, t)
              else (false, s')
          | EmptyString => (false, s')
          end in
        let (ds, r) := span_digits s'' in
        if truthy ds
        then Some (if negative then - digits_value 0 ds
                   else digits_value 0 ds, r)
        else None
      else Some (0, s)
  | EmptyString => Some (0, s)
  end.

(** The digits of a JSON number without its sign: the mantissa, the
    decimal exponent, and what follows the number. *)
Definition parse_decimal (s : string) : option (Z * Z * string) :=
  let (int, s) := span_digits s in
  if valid_int int then
    match parse_fraction s with
    | Some (frac, s) =>
        match parse_exponent s with
        | Some (ex, s) =>
            Some (digits_value 0 (int ++ frac),
                  ex - Z.of_nat (String.length frac), s)
        | None => None
        end
    | None => None
    end
  else None.

(** A JSON number and what follows it. *)
Definition parse_number (s : string) : option (number * string) :=
  let '(negative, s) :=
    match s with
    | String c s' => if Ascii.eqb c "-" then (true, s') else (false, s)
    | EmptyString => (false, s)
    end in
  match parse_decimal s with
  | Some (mantissa, x10, rest) =>
      Some (number_of_decimal negative mantissa x10, rest)
  | None => None
  end.

Definition hex_value (c : ascii) : option N :=
  let n := N_of_ascii c in
  if ((48 <=? n) && (n <=? 57))%N then Some (n - 48)%N
  else if ((97 <=? n) && (n <=? 102))%N then Some (n - 87)%N
  else if ((65 <=? n) && (n <=? 70))%N then Some (n - 55)%N
  else None.

Definition hex4 (a b c d : ascii) : option N :=
  match hex_value a, hex_value b, hex_value c, hex_value d with
  | Some x, Some y, Some z, Some t => Some (((x * 16 + y) * 16 + z) * 16 + t)%N
  | _, _, _, _ => None
  end.

Definition byte (n : N) : string := String (ascii_of_N n) "".

(** The UTF-8 bytes of a code point. *)
Definition utf8 (cp : N) : string :=
  (if cp <? 128 then byte cp
   else if cp <? 2048 then byte (192 + cp / 64) ++ byte (128 + cp mod 64)
   else if cp <? 65536 then
     byte (224 + cp / 4096) ++ byte (128 + (cp / 64) mod 64)
       ++ byte (128 + cp mod 64)
   else
     byte (240 + cp / 262144) ++ byte (128 + (cp / 4096) mod 64)
       ++ byte (128 + (cp / 64) mod 64) ++ byte (128 + cp mod 64))%N.

Definition high_surrogate (u : N) : bool := ((55296 <=? u) && (u <? 56320))%N.
Definition low_surrogate (u : N) : bool := ((56320 <=? u) && (u <? 57344))%N.

(** The character a two-character escape stands for. *)
Definition simple_escape (c : ascii) : option ascii :=
  if Ascii.eqb c DQUOTE then Some DQUOTE
  else if Ascii.eqb c "\" then Some "\"%char
  else if Ascii.eqb c "/" then Some "/"%char
  else if Ascii.eqb c "b" then Some "008"%char
  else if Ascii.eqb c "f" then Some "012"%char
  else if Ascii.eqb c "n" then Some "010"%char
  else if Ascii.eqb c "r" then Some "013"%char
  else if Ascii.eqb c "t" then Some "009"%char
  else None.

Definition prepend (p : string) (r : option (string * string))
  : option (string * string) :=
  match r with
  | Some (s, rest) => Some (p ++ s, rest)
  | None => None
  end.

(** The characters of a JSON string up to its closing quote, decoded, and
    what follows the quote. *)
Fixpoint parse_chars (s : string) : option (string * string) :=
  match s with
  | EmptyString => None
  | String c s1 =>
      if Ascii.eqb c DQUOTE then Some ("", s1)
      else if Ascii.eqb c "\" then
        match s1 with
        | EmptyString => None
        | String e s2 =>
            match simple_escape e with
            | Some ch => prepend (String ch "") (parse_chars s2)
            | None =>
                if Ascii.eqb e "u" then
                  match s2 with
                  | String h1 (String h2 (String h3 (String h4 s3))) =>
                      match hex4 h1 h2 h3 h4 with
                      | Some u =>
                          if high_surrogate u then
                            match s3 with
                            | String b (String v (String l1 (String l2
                                (String l3 (String l4 s4))))) =>
                                match hex4 l1 l2 l3 l4 with
                                | Some lo =>
                                    if Ascii.eqb b "\" && Ascii.eqb v "u"
                                       && low_surrogate lo
                                    then
                                      prepend
                                        (utf8 (65536 + (u - 55296) * 1024
                                                 + (lo - 56320))%N)
                                        (parse_chars s4)
                                    else prepend (utf8 u) (parse_chars s3)
                                | None => prepend (utf8 u) (parse_chars s3)
                                end
                            | _ => prepend (utf8 u) (parse_chars s3)
                            end
                          else prepend (utf8 u) (parse_chars s3)
                      | None => None
                      end
                  | _ => None
                  end
                else None
            end
        end
      else if (N_of_ascii c <? 32)%N then None
      else prepend (String c "") (parse_chars s1)
  end.

Definition is_ws (c : ascii) : bool :=
  let n := N_of_ascii c in
  ((n =? 9) || (n =? 10) || (n =? 13) || (n =? 32))%N.

Fixpoint skip_ws (s : string) : string :=
  match s with
  | EmptyString => ""
  | String c s' => if is_ws c then skip_ws s' else s
  end.

(** [s] without its prefix [literal]. *)
Fixpoint strip_prefix (literal s : string) : option string :=
  match literal, s with
  | EmptyString, _ => Some s
  | String a l', String b s' =>
      if Ascii.eqb a b then strip_prefix l' s' else None
  | String _ _, EmptyString => None
  end.

(** A later member of the same name replaces the value of the earlier one,
    in the earlier one's place. *)
Fixpoint set_member (k : string) (v : jsvalue)
  (members : list (string * jsvalue)) : list (string * jsvalue) :=
  match members with
  | [] => [ (k, v) ]
  | (k', v') :: ms =>
      if String.eqb k' k then (k', v) :: ms else (k', v') :: set_member k v ms
  end.

Definition object_of (members : list (string * jsvalue)) : jsvalue :=
  JObject (fold_left (fun o kv => set_member (fst kv) (snd kv) o) members []).

Fixpoint parse_value (fuel : nat) (s : string) {struct fuel}
  : option (jsvalue * string) :=
  match fuel with
  | O => None
  | S fuel' =>
      match s with
      | EmptyString => None
      | String c rest =>
          if Ascii.eqb c "{" then
            match skip_ws rest with
            | String c' rest' =>
                if Ascii.eqb c' "}" then Some (JObject [], rest')
                else
                  match parse_members fuel' (String c' rest') with
                  | Some (ms, r) => Some (object_of ms, r)
                  | None => None
                  end
            | EmptyString => None
            end
          else if Ascii.eqb c "[" then
            match skip_ws rest with
            | String c' rest' =>
                if Ascii.eqb c' "]" then Some (JArray [], rest')
                else
                  match parse_elements fuel' (String c' rest') with
                  | Some (vs, r) => Some (JArray vs, r)
                  | None => None
                  end
            | EmptyString => None
            end
          else if Ascii.eqb c DQUOTE then
            match parse_chars rest with
            | Some (str, r) => Some (JString str, r)
            | None => None
            end
          else if Ascii.eqb c "-" || is_digit c then
            match parse_number s with
            | Some (x, r) => Some (JNumber x, r)
            | None => None
            end
          else if Ascii.eqb c "t" then
            option_map (fun r => (JBoolean true, r)) (strip_prefix "true" s)
          else if Ascii.eqb c "f" then
            option_map (fun r => (JBoolean false, r)) (strip_prefix "false" s)
          else if Ascii.eqb c "n" then
            option_map (fun r => (JNull, r)) (strip_prefix "null" s)
          else None
      end
  end

with parse_elements (fuel : nat) (s : string) {struct fuel}
  : option (list jsvalue * string) :=
  match fuel with
  | O => None
  | S fuel' =>
      match parse_value fuel' (skip_ws s) with
      | Some (v, s1) =>
          match skip_ws s1 with
          | String c s2 =>
              if Ascii.eqb c "," then
                match parse_elements fuel' s2 with
                | Some (vs, s3) => Some (v :: vs, s3)
                | None => None
                end
              else if Ascii.eqb c "]" then Some ([ v ], s2)
              else None
          | EmptyString => None
          end
      | None => None
      end
  end

with parse_members (fuel : nat) (s : string) {struct fuel}
  : option (list (string * jsvalue) * string) :=
  match fuel with
  | O => None
  | S fuel' =>
      match skip_ws s with
      | String q s0 =>
          if Ascii.eqb q DQUOTE then
            match parse_chars s0 with
            | Some (k, s1) =>
                match skip_ws s1 with
                | String c s2 =>
                    if Ascii.eqb c ":" then
                      match parse_value fuel' (skip_ws s2) with
                      | Some (v, s3) =>
                          match skip_ws s3 with
                          | String c' s4 =>
                              if Ascii.eqb c' "," then
                                match parse_members fuel' s4 with
                                | Some (ms, s5) => Some ((k, v) :: ms, s5)
                                | None => None
                                end
                              else if Ascii.eqb c' "}" then
                                Some ([ (k, v) ], s4)
                              else None
                          | EmptyString => None
                          end
                      | None => None
                      end
                    else None
                | EmptyString => None
                end
            | None => None
            end
          else None
      | EmptyString => None
      end
  end.

(** [JSON.parse(text)]: one value between optional white space. *)
Definition parse (text : string) : option jsvalue :=
  match parse_value (S (String.length text)) (skip_ws text) with
  | Some (v, rest) =>
      match skip_ws rest with
      | EmptyString => Some v
      | String _ _ => None
      end
  | None => None
  end.

(** *** What survives the way through text *)

(** A number as JSON text carries it: the sign of zero is lost. *)
Definition positive_zero (x : number) : number :=
  match Prim2SF x with
  | S754_zero _ => 0%float
  | _ => x
  end.

Fixpoint distinct (keys : list string) : bool :=
  match keys with
  | [] => true
  | k :: ks => negb (existsb (String.eqb k) ks) && distinct ks
  end.

(** What text can carry: finite numbers, and objects whose member names
    differ from one another (as the property names of an object do). *)
Fixpoint serializable (v : jsvalue) : bool :=
  match v with
  | JNumber x => finite x
  | JArray elements => forallb serializable elements
  | JObject members =>
      distinct (map fst members)
      && forallb (fun kv => serializable (snd kv)) members
  | _ => true
  end.

(** The value read back from the text of [v]. *)
Fixpoint normal (v : jsvalue) : jsvalue :=
  match v with
  | JNumber x => JNumber (positive_zero x)
  | JArray elements => JArray (map normal elements)
  | JObject members =>
      JObject (map (fun kv => (fst kv, normal (snd kv))) members)
  | _ => v
  end.

Fixpoint member (k : string) (members : list (string * jsvalue))
  : option jsvalue :=
  match members with
  | [] => None
  | (k', v) :: ms => if String.eqb k' k then Some v else member k ms
  end.

(** Deep equality: numbers as by [===], arrays element by element, objects
    member by member whatever the order of the members. *)
Fixpoint deep_equal (a b : jsvalue) {struct a} : bool :=
  match a, b with
  | JNull, JNull => true
  | JBoolean x, JBoolean y => Bool.eqb x y
  | JNumber x, JNumber y => PrimFloat.eqb x y
  | JString x, JString y => String.eqb x y
  | JArray l1, JArray l2 =>
      (fix all2 (l1 l2 : list jsvalue) {struct l1} : bool :=
         match l1, l2 with
         | [], [] => true
         | x :: l1', y :: l2' => deep_equal x y && all2 l1' l2'
         | _, _ => false
         end) l1 l2
  | JObject m1, JObject m2 =>
      Nat.eqb (List.length m1) (List.length m2)
      && (fix all1 (m : list (string * jsvalue)) {struct m} : bool :=
            match m with
            | [] => true
            | kv :: m' =>
                match member (fst kv) m2 with
                | Some y => deep_equal (snd kv) y
                | None => false
                end && all1 m'
            end) m1
  | _, _ => false
  end.

(** The fuel the parser needs for the text of a value. *)
Fixpoint cost (v : jsvalue) : nat :=
  match v with
  | JArray elements =>
      S (fold_right (fun x acc => S (Nat.max (cost x) acc)) O elements)
  | JObject members =>
      S (fold_right (fun kv acc => S (Nat.max (cost (snd kv)) acc)) O members)
  | _ => 1%nat
  end.

Definition elements_cost (l : list jsvalue) : nat :=
  fold_right (fun x acc => S (Nat.max (cost x) acc)) O l.

Definition members_cost (l : list (string * jsvalue)) : nat :=
  fold_right (fun kv acc => S (Nat.max (cost (snd kv)) acc)) O l.

Fixpoint all_ws (s : string) : bool :=
  match s with
  | EmptyString => true
  | String c s' => is_ws c && all_ws s'
  end.

Fixpoint all_digits (s : string) : bool :=
  match s with
  | EmptyString => true
  | String c s' => is_digit c && all_digits s'
  end.

(** What may follow a number: the end of the text, or a character that
    cannot continue it. *)
Definition ends_number (rest : string) : bool :=
  match rest with
  | EmptyString => true
  | String c _ =>
      negb (is_digit c || Ascii.eqb c "." || Ascii.eqb c "e"
            || Ascii.eqb c "E")
  end.

(** A character the text of a number starts with. *)
Definition starts_number (c : ascii) : bool := Ascii.eqb c "-" || is_digit c.

(** The exponent part of a number in exponential notation. *)
Definition exponent_text (ex : Z) : string :=
  "e" ++ (if ex <? 0 then "-" else "+") ++ decimal (Z.abs ex).

(** The text of one member of an object. *)
Definition member_of (gap indent : string) (kv : string * jsvalue) : string :=
  quote (fst kv) ++ ":" ++ " " ++ serialize gap indent (snd kv).

(** The text of [v], at any indentation and before any text that cannot
    continue a number, is read back as [normal v]. *)
Definition reads_back (gap : string) (v : jsvalue) : Prop :=
  serializable v = true ->
  forall (indent rest : string) (fuel : nat),
    all_ws indent = true ->
    ends_number rest = true ->
    (cost v <= fuel)%nat ->
    parse_value fuel (serialize gap indent v ++ rest) = Some (normal v, rest).

(** The text of [v] is long enough to be the fuel of its parse. *)
Definition fits (gap : string) (v : jsvalue) : Prop :=
  forall indent : string,
    (cost v <= S (String.length (serialize gap indent v)))%nat.

End JSON.

Import JSON.

(** The printer's data as JavaScript values; the properties of each object
    are taken in the order of its interface declaration, and an absent
    [extendedInfo] is no property at all. *)
Definition value_of_Score (s : Score) : jsvalue :=
  match s with
  | ScoreBoolean b => JBoolean b
  | ScoreNumber x => JNumber x
  | ScoreString s => JString s
  end.

Definition value_of_ExtendedInfo (ei : ExtendedInfo) : jsvalue :=
  JObject [ ("value", JString (value ei));
            ("formatter", JString (formatter ei)) ].

Definition value_of_AuditResult (a : AuditResult) : jsvalue :=
  JObject
    ([ ("displayValue", JString (displayValue a));
       ("debugString", JString (debugString a));
       ("score", value_of_Score (score a));
       ("description", JString (description a)) ]
     ++ match extendedInfo a with
        | Some ei => [ ("extendedInfo", value_of_ExtendedInfo ei) ]
        | None => []
        end).

Definition value_of_SubItem (s : SubItem) : jsvalue :=
  match s with
  | Inline a => value_of_AuditResult a
  | Reference key => JString key
  end.

Definition value_of_AggregationResultItem (i : AggregationResultItem)
  : jsvalue :=
  JObject [ ("overall", JNumber (overall i));
            ("name", JString (name i));
            ("scored", JBoolean (scored i));
            ("subItems", JArray (map value_of_SubItem (subItems i))) ].

Definition value_of_Aggregation (a : Aggregation) : jsvalue :=
  JObject
    [ ("name", JString (aggregation_name a));
      ("score",
       JArray (map value_of_AggregationResultItem (aggregation_score a))) ].

Definition value_of_Results (r : Results) : jsvalue :=
  JObject
    [ ("url", JString (url r));
      ("aggregations", JArray (map value_of_Aggregation (aggregations r)));
      ("audits",
       JObject (map (fun kv => (fst kv, value_of_AuditResult (snd kv)))
                    (audits r)));
      ("lighthouseVersion", JString (lighthouseVersion r)) ].

(** The numbers of a [Results] tree are finite: every [overall] and every
    numeric [score], inline or in [audits]. *)
Definition finite_score (s : Score) : bool :=
  match s with
  | ScoreNumber x => finite x
  | _ => true
  end.

Definition finite_subitem (s : SubItem) : bool :=
  match s with
  | Inline a => finite_score (score a)
  | Reference _ => true
  end.

Definition finite_item (i : AggregationResultItem) : bool :=
  finite (overall i) && forallb finite_subitem (subItems i).

Definition finite_aggregation (a : Aggregation) : bool :=
  forallb finite_item (aggregation_score a).

Definition finite_numbers (r : Results) : bool :=
  forallb finite_aggregation (aggregations r)
  && forallb (fun kv => finite_score (score (snd kv))) (audits r).

(** ** The printer *)

Definition green : string := ESC ++ "[32m".
Definition red : string := ESC ++ "[31m".
Definition yellow : string := ESC ++ "[33m".
Definition purple : string := ESC ++ "[95m".
Definition reset : string := ESC ++ "[0m".
Definition bold : string := ESC ++ "[1m".

(** Verify output path to use, either stdout or a file path. *)
Definition checkOutputPath (path : string) (w : World) : string * World :=
  if negb (truthy path)
  then ("stdout", log_add warn "Printer" "No output path set; using stdout" w)
  else (path, w).

Definition formatAggregationResultItem (score : Score) (suffix : option string)
  : string :=
  let suffix :=
    match suffix with
    | Some s => if truthy s then s else ""
    | None => ""
    end in
  match score with
  | ScoreBoolean b =>
      let check := green ++ "✓" ++ reset in
      let fail := red ++ "✘" ++ reset in
      if b then check else fail
  | ScoreString s => purple ++ s ++ reset
  | ScoreNumber x =>
      let colorChoice := red in
      let colorChoice := if gt x 45%float then yellow else colorChoice in
      let colorChoice := if gt x 75%float then green else colorChoice in
      colorChoice ++ Number_toString x ++ suffix ++ reset
  end.

(** [list.forEach] over a body that appends to [output] and may throw. *)
Fixpoint forEach {A : Type} (body : string -> A -> completion string)
  (l : list A) (output : string) : completion string :=
  match l with
  | [] => Normal output
  | a :: l' => output' <- body output a ;; forEach body l' output'
  end.

Section Printer.

(** The collaborators from [lighthouse-core], which the printer only calls:
    [new ReportGenerator().generateHTML(results, {inline: true})] and
    [Formatter.getByName(name).getFormatter('pretty')(value)]. *)
Variable generateHTML : Results -> completion string.
Variable Formatter_pretty : string -> string -> completion string.

(** The line of an object that has no [AuditResult] field: its score and
    its description both print as [undefined]. *)
Definition foreign_line : string :=
  " ── " ++ purple ++ "undefined" ++ reset ++ " " ++ "undefined".

(** The body of [item.subItems.forEach]. *)
Definition render_subitem (results : Results) (output : string)
  (subitem : SubItem) : completion string :=
  let subscore :=
    match subitem with
    | Reference key => get_audit (audits results) key
    | Inline a => Own a
    end in
  match subscore with
  | Missing => Throw (TypeError "Cannot read property 'score' of undefined")
  | Foreign => Normal (output ++ foreign_line ++ LF)
  | Own subscore =>
      let lineItem :=
        " ── " ++ formatAggregationResultItem (score subscore) None
               ++ " " ++ description subscore in
      let lineItem :=
        if truthy (displayValue subscore)
        then lineItem ++ " (" ++ bold ++ displayValue subscore ++ reset ++ ")"
        else lineItem in
      let output := output ++ lineItem ++ LF in
      let output :=
        if truthy (debugString subscore)
        then output ++ "    " ++ debugString subscore ++ LF
        else output in
      match extendedInfo subscore with
      | Some ei =>
          if truthy (value ei)
          then text <- Formatter_pretty (formatter ei) (value ei) ;;
               Normal (output ++ text)
          else Normal output
      | None => Normal output
      end
  end.

(** The body of [aggregation.score.forEach]. *)
Definition render_item (results : Results) (output : string)
  (item : AggregationResultItem) : completion string :=
  let score := toFixed0 (overall item * 100)%float in
  let output :=
    if truthy (name item)
    then output ++ bold ++ name item ++ reset ++ ": "
           ++ (if scored item
               then formatAggregationResultItem (ScoreString score) (Some "%")
               else "")
           ++ LF
    else output in
  output <- forEach (render_subitem results) (subItems item) output ;;
  Normal (output ++ LF).

(** The body of [results.aggregations.forEach]. *)
Definition render_aggregation (results : Results) (output : string)
  (aggregation : Aggregation) : completion string :=
  let output :=
    output ++ "▫ " ++ bold ++ aggregation_name aggregation ++ reset
      ++ LF ++ LF in
  forEach (render_item results) (aggregation_score aggregation) output.

(** Creates the results output in a format based on the [mode]. *)
Definition createOutput (results : Results) (outputMode : Discriminant)
  : completion string :=
  match outputMode with
  | Member html => generateHTML results
  | Member json => Normal (stringify2 (value_of_Results results))
  | _ =>
      let version := lighthouseVersion results in
      let output :=
        LF ++ LF ++ bold ++ "Lighthouse (" ++ version ++ ") results:" ++ reset
          ++ " " ++ url results ++ LF ++ LF in
      forEach (render_aggregation results) (aggregations results) output
  end.

(** Writes the output to stdout; the promise resolves once the timer has
    fired and the text is written. *)
Definition writeToStdout (output : string) (w : World)
  : settlement unit * World :=
  (Resolved tt, stdout_write (output ++ LF) w).

(** Writes the output to a file. *)
Definition writeFile (filePath output : string) (outputMode : Discriminant)
  (w : World) : settlement unit * World :=
  match fs_writeFile filePath output w with
  | (Some err, w') => (Rejected err, w')
  | (None, w') =>
      (Resolved tt,
       log_add info "Printer"
         (OutputMode_label outputMode ++ " output written to " ++ filePath)
         w')
  end.

(** Writes the results.  An exception thrown in the promise's executor
    rejects the promise. *)
Definition write (results : Results) (mode : Mode) (path : string)
  (w : World) : settlement Results * World :=
  let '(outputPath, w) := checkOutputPath path w in
  match createOutput results (OutputMode_get mode) with
  | Throw e => (Rejected e, w)
  | Normal output =>
      if String.eqb outputPath "stdout"
      then
        let '(_, w) := writeToStdout output w in
        (Resolved results, w)
      else
        match writeFile outputPath output (OutputMode_get mode) w with
        | (Resolved _, w) => (Resolved results, w)
        | (Rejected err, w) => (Rejected err, w)
        end
  end.

End Printer.

Definition GetValidOutputOptions : list Mode :=
  [ OutputMode_label (Member pretty);
    OutputMode_label (Member json);
    OutputMode_label (Member html) ].

(** Whether [needle] occurs in [hay]. *)
Definition contains (needle hay : string) : bool :=
  match index 0 needle hay with
  | Some _ => true
  | None => false
  end.


(** ** The collaborators and inputs used in examples *)

(** A report generator and a formatter registry that know nothing. *)
Definition no_report (_ : Results) : completion string :=
  Throw (Error "no report generator").

Definition no_formatter (formatterName _ : string) : completion string :=
  Throw (Error ("Unknown formatter: " ++ formatterName)).

(** A world with nothing written yet, in which every file write succeeds. *)
Definition empty_world : World :=
  {| stdout := ""; files := []; log := []; fs_error := fun _ _ => None |}.

(** A world whose file system refuses every write: no such directory. *)
Definition readonly_world : World :=
  {| stdout := "";
     files := [];
     log := [];
     fs_error := fun _ _ => Some (SystemError "ENOENT") |}.

Definition audit_desc : AuditResult :=
  {| displayValue := "";
     debugString := "";
     score := ScoreNumber 90%float;
     description := "desc";
     extendedInfo := None |}.

(** The [Results] of the minimal scenario: one aggregation [Cat] with one
    scored item [Item] of overall 0.8 and one inline audit of score 90. *)
Definition minimal_results : Results :=
  {| url := "http://x";
     aggregations :=
       [ {| aggregation_name := "Cat";
            aggregation_score :=
              [ {| overall := 0x1.999999999999ap-1%float;
                   name := "Item";
                   scored := true;
                   subItems := [ Inline audit_desc ] |} ] |} ];
     audits := [];
     lighthouseVersion := "1.0" |}.

(** The same tree with the audit moved into [audits] under the key [a1]. *)
Definition referencing_results (key : string) : Results :=
  {| url := "http://x";
     aggregations :=
       [ {| aggregation_name := "Cat";
            aggregation_score :=
              [ {| overall := 0x1.999999999999ap-1%float;
                   name := "Item";
                   scored := true;
                   subItems := [ Reference key ] |} ] |} ];
     audits := [ ("a1", audit_desc) ];
     lighthouseVersion := "1.0" |}.

(** An item that is not scored. *)
Definition unscored_item : AggregationResultItem :=
  {| overall := 0x1.999999999999ap-1%float;
     name := "Item";
     scored := false;
     subItems := [ Inline audit_desc ] |}.

(** The minimal scenario with an infinite score in its audit. *)
Definition infinite_results : Results :=
  {| url := "http://x";
     aggregations :=
       [ {| aggregation_name := "Cat";
            aggregation_score :=
              [ {| overall := 0x1.999999999999ap-1%float;
                   name := "Item";
                   scored := true;
                   subItems :=
                     [ Inline
                         {| displayValue := "";
                            debugString := "";
                            score := ScoreNumber infinity;
                            description := "desc";
                            extendedInfo := None |} ] |} ] |} ];
     audits := [];
     lighthouseVersion := "1.0" |}.

(** The suffix as the formatter uses it: [suffix || '']. *)
Definition suffix_text (suffix : option string) : string :=
  match suffix with
  | Some s => s
  | None => ""
  end.

(** ** Notions the further properties are stated with *)

(** The first lines of the pretty report. *)
Definition pretty_header (r : Results) : string :=
  LF ++ LF ++ bold ++ "Lighthouse (" ++ lighthouseVersion r ++ ") results:"
    ++ reset ++ " " ++ url r ++ LF ++ LF.

(** A loop body that only appends to [output], and appends the same text
    whatever [output] is. *)
Definition appends {A : Type} (body : string -> A -> completion string)
  : Prop :=
  forall (output : string) (a : A),
    body output a = (text <- body "" a ;; Normal (output ++ text)).

(** An audit result the formatter registry is not consulted for: it has no
    [extendedInfo], or one whose [value] is empty. *)
Definition plain_audit (a : AuditResult) : bool :=
  match extendedInfo a with
  | Some ei => negb (truthy (value ei))
  | None => true
  end.

Definition plain_subitem (s : SubItem) : bool :=
  match s with
  | Inline a => plain_audit a
  | Reference _ => true
  end.

Definition plain_results (r : Results) : bool :=
  forallb (fun aggregation =>
             forallb (fun item => forallb plain_subitem (subItems item))
               (aggregation_score aggregation))
    (aggregations r)
  && forallb (fun kv => plain_audit (snd kv)) (audits r).


(** A formatter registry that knows every name and returns the value as it
    is. *)
Definition echo_formatter (_ v : string) : completion string := Normal v.

(** Whether the lookup of every key among [subItems] finds something to
    read a [score] from. *)
Definition resolved_subitem (au : list (string * AuditResult)) (s : SubItem)
  : bool :=
  match s with
  | Inline _ => true
  | Reference key =>
      match get_audit au key with
      | Missing => false
      | _ => true
      end
  end.

Definition resolved_item (au : list (string * AuditResult))
  (item : AggregationResultItem) : bool :=
  forallb (resolved_subitem au) (subItems item).

Definition resolved_aggregation (au : list (string * AuditResult))
  (aggregation : Aggregation) : bool :=
  forallb (resolved_item au) (aggregation_score aggregation).

Definition resolved (r : Results) : bool :=
  forallb (resolved_aggregation (audits r)) (aggregations r).

(** The exception of reading [subscore.score] when [subscore] is
    [undefined]. *)
Definition score_of_undefined : exn :=
  TypeError "Cannot read property 'score' of undefined".


(** * Properties *)

(** Boolean tests on integers, as propositions. *)
Ltac to_prop :=
  repeat match goal with
    | H : _ && _ = true |- _ => apply andb_prop in H; destruct H
    | H : _ && _ = false |- _ => apply andb_false_iff in H
    | H : (_ <=? _) = true |- _ => apply Z.leb_le in H
    | H : (_ <=? _) = false |- _ => apply Z.leb_gt in H
    | H : (_ <? _) = true |- _ => apply Z.ltb_lt in H
    | H : (_ <? _) = false |- _ => apply Z.ltb_ge in H
    | H : (_ =? _) = true |- _ => apply Z.eqb_eq in H
    | H : (_ =? _) = false |- _ => apply Z.eqb_neq in H
    end.

(** ** Strings *)

Lemma append_assoc (s1 s2 s3 : string) :
  (s1 ++ s2) ++ s3 = s1 ++ (s2 ++ s3).
Proof. induction s1 as [|c s1 IH]; simpl; [reflexivity | now rewrite IH]. Qed.

Lemma append_nil_r (s : string) : s ++ "" = s.
Proof. induction s as [|c s IH]; simpl; [reflexivity | now rewrite IH]. Qed.

Lemma length_append (s1 s2 : string) :
  String.length (s1 ++ s2) = (String.length s1 + String.length s2)%nat.
Proof. induction s1 as [|c s1 IH]; simpl; [reflexivity | now rewrite IH]. Qed.

Lemma take_drop (n : nat) (s : string) : take n s ++ drop n s = s.
Proof.
  revert s. induction n as [|n IH]; intros [|c s]; simpl; try reflexivity.
  now rewrite IH.
Qed.

Lemma length_take (n : nat) (s : string) :
  (n <= String.length s)%nat -> String.length (take n s) = n.
Proof.
  revert s. induction n as [|n IH]; intros [|c s]; simpl; intros H;
    try reflexivity; try lia.
  rewrite IH by lia. reflexivity.
Qed.

Lemma length_drop (n : nat) (s : string) :
  String.length (drop n s) = (String.length s - n)%nat.
Proof.
  revert s. induction n as [|n IH]; intros [|c s]; simpl; try reflexivity.
  apply IH.
Qed.

(** ** Comparisons of numbers *)

Lemma SFleb_bound_not_SFltb (c : spec_float) (ma mb : positive) (ea eb : Z) :
  ea < eb \/ (ea = eb /\ (ma <= mb)%positive) ->
  SFleb c (S754_finite false ma ea) = true ->
  SFltb (S754_finite false mb eb) c = false.
Proof.
  intros Hab. unfold SFleb, SFltb.
  destruct c as [s|s| |s m e]; simpl; try reflexivity;
    try (destruct s; reflexivity || discriminate).
  destruct s; [reflexivity|].
  destruct (Z.compare_spec e ea), (Z.compare_spec eb e);
    try lia; try reflexivity; try discriminate.
  subst. fold (Pos.compare m ma). fold (Pos.compare mb m).
  destruct (Pos.compare_spec m ma), (Pos.compare_spec mb m);
    try reflexivity; try discriminate; lia.
Qed.

(** [x <= a] excludes [x > b] whenever [a <= b], for positive finite bounds. *)
Lemma leb_excludes_gt (x a b : number) (ma mb : positive) (ea eb : Z) :
  Prim2SF a = S754_finite false ma ea ->
  Prim2SF b = S754_finite false mb eb ->
  ea < eb \/ (ea = eb /\ (ma <= mb)%positive) ->
  PrimFloat.leb x a = true -> gt x b = false.
Proof.
  intros Ha Hb Hab Hle. unfold gt.
  rewrite FloatAxioms.ltb_spec, Hb.
  rewrite FloatAxioms.leb_spec, Ha in Hle.
  eapply SFleb_bound_not_SFltb; eauto.
Qed.

Lemma le45_not_gt45 (x : number) :
  PrimFloat.leb x 45%float = true -> gt x 45%float = false.
Proof.
  apply (leb_excludes_gt x 45%float 45%float 6333186975989760 6333186975989760
           (-47) (-47)); try reflexivity.
  right; split; [reflexivity | lia].
Qed.

Lemma le45_not_gt75 (x : number) :
  PrimFloat.leb x 45%float = true -> gt x 75%float = false.
Proof.
  apply (leb_excludes_gt x 45%float 75%float 6333186975989760 5277655813324800
           (-47) (-46)); try reflexivity.
  left; lia.
Qed.

Lemma le75_not_gt75 (x : number) :
  PrimFloat.leb x 75%float = true -> gt x 75%float = false.
Proof.
  apply (leb_excludes_gt x 75%float 75%float 5277655813324800 5277655813324800
           (-46) (-46)); try reflexivity.
  right; split; [reflexivity | lia].
Qed.

Lemma truthy_suffix (suffix : option string) :
  match suffix with
  | Some s => if truthy s then s else ""
  | None => ""
  end = suffix_text suffix.
Proof. destruct suffix as [[|c s]|]; reflexivity. Qed.

(** ** The score colorizer *)

(** C4.  The colorizer is a total function of a boolean, a number or a
    string.  A boolean gives the green check or the red cross and a string
    gives the string in purple.  For every number [x] the result is one
    color code, then the number, then the suffix, then the reset code; the
    color is red when [x <= 45], yellow when [45 < x <= 75] and green when
    [x > 75], so 45 is red, 46 and 75 are yellow and 76 is green. *)
Theorem formatAggregationResultItem_tiers :
  (forall (b : bool) (suffix : option string),
      formatAggregationResultItem (ScoreBoolean b) suffix
      = if b then green ++ "✓" ++ reset else red ++ "✘" ++ reset)
  /\ (forall (s : string) (suffix : option string),
      formatAggregationResultItem (ScoreString s) suffix
      = purple ++ s ++ reset)
  /\ (forall (x : number) (suffix : option string),
      exists color : string,
        formatAggregationResultItem (ScoreNumber x) suffix
        = color ++ Number_toString x ++ suffix_text suffix ++ reset
        /\ (color = red \/ color = yellow \/ color = green)
        /\ (PrimFloat.leb x 45%float = true -> color = red)
        /\ (PrimFloat.ltb 45%float x = true ->
            PrimFloat.leb x 75%float = true ->
            color = yellow)
        /\ (PrimFloat.ltb 75%float x = true -> color = green))
  /\ formatAggregationResultItem (ScoreNumber 45%float) None
     = red ++ "45" ++ reset
  /\ formatAggregationResultItem (ScoreNumber 46%float) None
     = yellow ++ "46" ++ reset
  /\ formatAggregationResultItem (ScoreNumber 75%float) None
     = yellow ++ "75" ++ reset
  /\ formatAggregationResultItem (ScoreNumber 76%float) None
     = green ++ "76" ++ reset
  /\ red <> yellow /\ yellow <> green /\ red <> green.
Proof.
  split; [intros [|] suffix; reflexivity|].
  split; [intros s suffix; reflexivity|].
  split.
  - intros x suffix. unfold formatAggregationResultItem.
    rewrite truthy_suffix.
    exists (if gt x 75%float then green
            else if gt x 45%float then yellow else red).
    split; [reflexivity|].
    split; [destruct (gt x 75%float), (gt x 45%float); auto|].
    split; [intros H; rewrite (le45_not_gt75 x H), (le45_not_gt45 x H);
            reflexivity|].
    split.
    + intros Hlt Hle. rewrite (le75_not_gt75 x Hle).
      unfold gt. rewrite Hlt. reflexivity.
    + intros Hlt. unfold gt. rewrite Hlt. reflexivity.
  - repeat split; try (vm_compute; reflexivity); discriminate.
Qed.

(** The tiers at a number just above the lower threshold. *)
Lemma formatAggregationResultItem_tiers_witness :
  PrimFloat.ltb 45%float 46%float = true
  /\ PrimFloat.leb 46%float 75%float = true
  /\ exists color : string,
       formatAggregationResultItem (ScoreNumber 46%float) (Some "%")
       = color ++ Number_toString 46%float ++ "%" ++ reset
       /\ color = yellow.
Proof.
  split; [reflexivity|]. split; [reflexivity|].
  destruct formatAggregationResultItem_tiers as (_ & _ & H & _).
  destruct (H 46%float (Some "%")) as (color & Heq & _ & _ & Hy & _).
  exists color. split; [exact Heq|]. apply Hy; reflexivity.
Defined.

(** ** The pretty renderer *)

Lemma forEach_app {A : Type} (body : string -> A -> completion string)
  (l1 l2 : list A) (output : string) :
  forEach body (l1 ++ l2) output
  = (output' <- forEach body l1 output ;; forEach body l2 output').
Proof.
  revert output. induction l1 as [|a l1 IH]; intros output; simpl.
  - reflexivity.
  - destruct (body output a) as [output'|e]; simpl; [apply IH | reflexivity].
Qed.

Lemma forEach_ext {A : Type} (body1 body2 : string -> A -> completion string)
  (l : list A) (output : string) :
  (forall out a, body1 out a = body2 out a) ->
  forEach body1 l output = forEach body2 l output.
Proof.
  intros Hext. revert output. induction l as [|a l IH]; intros output; simpl.
  - reflexivity.
  - rewrite Hext. destruct (body2 output a); simpl; [apply IH | reflexivity].
Qed.

Lemma forEach_replace {A : Type}
  (body1 body2 : string -> A -> completion string) (x y : A)
  (l1 l2 : list A) (output : string) :
  (forall out a, body1 out a = body2 out a) ->
  (forall out, body1 out x = body2 out y) ->
  forEach body1 (l1 ++ x :: l2) output
  = forEach body2 (l1 ++ y :: l2) output.
Proof.
  intros Hext Hxy. rewrite !forEach_app. simpl.
  rewrite (forEach_ext body1 body2 l1 output Hext).
  destruct (forEach body2 l1 output) as [out1|e]; simpl; [|reflexivity].
  rewrite Hxy. destruct (body2 out1 y) as [out2|e]; simpl; [|reflexivity].
  apply forEach_ext; exact Hext.
Qed.

(** The renderer reads nothing of [results] but its [audits]. *)
Lemma render_subitem_audits fp (r1 r2 : Results) output subitem :
  audits r1 = audits r2 ->
  render_subitem fp r1 output subitem = render_subitem fp r2 output subitem.
Proof. intros H. unfold render_subitem. rewrite H. reflexivity. Qed.

Lemma render_item_audits fp (r1 r2 : Results) output item :
  audits r1 = audits r2 ->
  render_item fp r1 output item = render_item fp r2 output item.
Proof.
  intros H. unfold render_item.
  rewrite (forEach_ext (render_subitem fp r1) (render_subitem fp r2));
    [reflexivity|].
  intros; apply render_subitem_audits; exact H.
Qed.

Lemma render_aggregation_audits fp (r1 r2 : Results) output aggregation :
  audits r1 = audits r2 ->
  render_aggregation fp r1 output aggregation
  = render_aggregation fp r2 output aggregation.
Proof.
  intros H. unfold render_aggregation. apply forEach_ext.
  intros; apply render_item_audits; exact H.
Qed.

(** The line of a named, scored item: the percentage is handed to the
    colorizer as the string [toFixed] returns, so it comes back in purple
    and without the suffix. *)
Lemma render_item_scored_line fp results output item :
  truthy (name item) = true ->
  scored item = true ->
  render_item fp results output item
  = (output' <- forEach (render_subitem fp results) (subItems item)
                  (output ++ bold ++ name item ++ reset ++ ": "
                     ++ purple ++ toFixed0 (overall item * 100)%float ++ reset
                     ++ LF) ;;
     Normal (output' ++ LF)).
Proof.
  intros Hname Hscored. unfold render_item. rewrite Hname, Hscored.
  change (formatAggregationResultItem
            (ScoreString (toFixed0 (overall item * 100)%float)) (Some "%"))
    with (purple ++ toFixed0 (overall item * 100)%float ++ reset).
  rewrite !append_assoc. reflexivity.
Qed.

(** C2.  The minimal scenario evaluated: the item [Item] has a name, is
    scored and has overall 0.8, yet its line is the name followed by a
    purple [80] and a reset code.  The output contains neither [80%] nor any
    percent sign: the colorizer received the string [toFixed(0)] returns and
    took its branch for values that are not numbers, which ignores the
    suffix and the color tiers. *)
Theorem scored_item_line_lacks_percent :
  exists output : string,
    createOutput no_report no_formatter minimal_results
      (OutputMode_get "pretty") = Normal output
    /\ contains (bold ++ "Item" ++ reset ++ ": " ++ purple ++ "80" ++ reset
                   ++ LF) output = true
    /\ contains "80%" output = false
    /\ contains "%" output = false.
Proof.
  eexists. split; [vm_compute; reflexivity|].
  repeat split; vm_compute; reflexivity.
Qed.

(** C9.  An item that is not scored gets no score token: its line is the
    name, a colon and a space, then the end of the line, and the whole
    output of the item is the same whatever its [overall] is. *)
Theorem unscored_item_has_no_score_token fp (results : Results)
  (output : string) (item : AggregationResultItem) :
  scored item = false ->
  render_item fp results output item
  = (output' <- forEach (render_subitem fp results) (subItems item)
                  (if truthy (name item)
                   then output ++ bold ++ name item ++ reset ++ ": " ++ LF
                   else output) ;;
     Normal (output' ++ LF))
  /\ forall overall' : number,
       render_item fp results output
         {| overall := overall';
            name := name item;
            scored := scored item;
            subItems := subItems item |}
       = render_item fp results output item.
Proof.
  intros Hscored. unfold render_item; simpl. rewrite Hscored. simpl.
  split; [|reflexivity].
  destruct (truthy (name item)); reflexivity.
Qed.

Lemma unscored_item_has_no_score_token_witness :
  render_item no_formatter minimal_results "" unscored_item
  = Normal (bold ++ "Item" ++ reset ++ ": " ++ LF
              ++ " ── " ++ green ++ "90" ++ reset ++ " desc" ++ LF ++ LF)
  /\ render_item no_formatter minimal_results ""
       {| overall := 0%float;
          name := "Item";
          scored := false;
          subItems := [ Inline audit_desc ] |}
     = render_item no_formatter minimal_results "" unscored_item.
Proof.
  destruct (unscored_item_has_no_score_token no_formatter minimal_results ""
              unscored_item eq_refl) as [Hline Hany].
  split; [rewrite Hline; vm_compute; reflexivity | exact (Hany 0%float)].
Defined.

(** C7.  A [subItems] entry that is a key of [audits] renders as the audit
    result stored under that key does when it is given inline: the two
    fragments are equal, and so are the whole outputs of two trees that
    differ in that entry only. *)
Theorem reference_renders_as_inline gh fp (key : string) (a : AuditResult)
  (u v : string) (au : list (string * AuditResult))
  (aggs1 aggs2 : list Aggregation) (an : string)
  (items1 items2 : list AggregationResultItem)
  (o : number) (nm : string) (sc : bool) (subs1 subs2 : list SubItem) :
  own_property au key = Some a ->
  let tree := fun entry : SubItem =>
    {| url := u;
       aggregations :=
         aggs1
         ++ [ {| aggregation_name := an;
                 aggregation_score :=
                   items1
                   ++ [ {| overall := o;
                           name := nm;
                           scored := sc;
                           subItems := subs1 ++ [ entry ] ++ subs2 |} ]
                   ++ items2 |} ]
         ++ aggs2;
       audits := au;
       lighthouseVersion := v |} in
  (forall output : string,
      render_subitem fp (tree (Reference key)) output (Reference key)
      = render_subitem fp (tree (Inline a)) output (Inline a))
  /\ createOutput gh fp (tree (Reference key)) (Member pretty)
     = createOutput gh fp (tree (Inline a)) (Member pretty).
Proof.
  intros Hown tree.
  set (r1 := tree (Reference key)). set (r2 := tree (Inline a)).
  assert (Haud : audits r1 = audits r2) by reflexivity.
  assert (Hfrag : forall output,
             render_subitem fp r1 output (Reference key)
             = render_subitem fp r2 output (Inline a)).
  { intros output. unfold render_subitem, get_audit. simpl.
    rewrite Hown. reflexivity. }
  split; [exact Hfrag|].
  unfold createOutput.
  change (lighthouseVersion r1) with (lighthouseVersion r2).
  change (url r1) with (url r2).
  apply forEach_replace.
  - intros; apply render_aggregation_audits; exact Haud.
  - intros output. unfold render_aggregation; simpl.
    apply forEach_replace.
    + intros; apply render_item_audits; exact Haud.
    + intros output'. unfold render_item; simpl.
      rewrite (forEach_replace (render_subitem fp r1) (render_subitem fp r2)
                 (Reference key) (Inline a)); [reflexivity | | exact Hfrag].
      intros; apply render_subitem_audits; exact Haud.
Qed.

Lemma reference_renders_as_inline_witness :
  own_property [ ("a1", audit_desc) ] "a1" = Some audit_desc
  /\ createOutput no_report no_formatter (referencing_results "a1")
       (Member pretty)
     = createOutput no_report no_formatter
         {| url := "http://x";
            aggregations := aggregations minimal_results;
            audits := [ ("a1", audit_desc) ];
            lighthouseVersion := "1.0" |}
         (Member pretty).
Proof.
  split; [reflexivity|].
  exact (proj2 (reference_renders_as_inline no_report no_formatter
                  "a1" audit_desc "http://x" "1.0" [ ("a1", audit_desc) ]
                  [] [] "Cat" [] [] 0x1.999999999999ap-1%float "Item" true
                  [] [] eq_refl)).
Defined.

(** A reference that [audits] cannot resolve makes the loop body throw. *)
Lemma render_subitem_missing fp (results : Results) (output key : string) :
  get_audit (audits results) key = Missing ->
  render_subitem fp results output (Reference key)
  = Throw (TypeError "Cannot read property 'score' of undefined").
Proof. intros H. unfold render_subitem. rewrite H. reflexivity. Qed.

(** C3.  A tree whose only [subItems] entry is the key [missing], with no
    such key in [audits], evaluated: the lookup yields [undefined], reading
    its [score] throws a [TypeError], and the exception leaves
    [createOutput]: no output at all is composed, [write] rejects with the
    same exception and nothing reaches standard output. *)
Theorem unresolved_reference_aborts_rendering :
  get_audit (audits (referencing_results "missing")) "missing" = Missing
  /\ createOutput no_report no_formatter (referencing_results "missing")
       (OutputMode_get "pretty")
     = Throw (TypeError "Cannot read property 'score' of undefined")
  /\ fst (write no_report no_formatter (referencing_results "missing")
            "pretty" "" empty_world)
     = Rejected (TypeError "Cannot read property 'score' of undefined")
  /\ stdout (snd (write no_report no_formatter
                    (referencing_results "missing") "pretty" ""
                    empty_world)) = "".
Proof. repeat split; vm_compute; reflexivity. Qed.

(** ** Delivery *)

(** C8.  Delivery to standard output appends the composed string and one
    line feed to what was written before and touches no file; delivery to a
    file, when the file system accepts the write, makes the composed string
    the whole contents of the file, with nothing added, and writes nothing
    to standard output. *)
Theorem delivery_bytes (output : string) (w : World) :
  (fst (writeToStdout output w) = Resolved tt
   /\ stdout (snd (writeToStdout output w)) = stdout w ++ output ++ LF
   /\ files (snd (writeToStdout output w)) = files w)
  /\ forall (filePath : string) (outputMode : Discriminant),
       fs_error w filePath output = None ->
       fst (writeFile filePath output outputMode w) = Resolved tt
       /\ file_contents (files (snd (writeFile filePath output outputMode w)))
            filePath = Some output
       /\ stdout (snd (writeFile filePath output outputMode w)) = stdout w.
Proof.
  split; [repeat split|].
  intros filePath outputMode Hok.
  unfold writeFile, fs_writeFile. rewrite Hok. simpl.
  rewrite String.eqb_refl. repeat split.
Qed.

Lemma delivery_bytes_witness :
  fs_error empty_world "out.txt" "report" = None
  /\ stdout (snd (writeToStdout "report" empty_world)) = "report" ++ LF
  /\ file_contents
       (files (snd (writeFile "out.txt" "report" (Member pretty) empty_world)))
       "out.txt" = Some "report".
Proof.
  split; [reflexivity|].
  destruct (delivery_bytes "report" empty_world) as [(_ & Hout & _) Hfile].
  split; [exact Hout|].
  exact (proj1 (proj2 (Hfile "out.txt" (Member pretty) eq_refl))).
Defined.

Lemma checkOutputPath_fs_error (path : string) (w : World) :
  fs_error (snd (checkOutputPath path w)) = fs_error w.
Proof. unfold checkOutputPath. destruct (truthy path); reflexivity. Qed.

(** C5.  Whenever composition returns an output, [write] resolves with the
    [Results] it was given if the destination is standard output or the file
    system accepts the write, and rejects with the file system's error if
    the destination is a file and the write fails. *)
Theorem write_resolves_with_results gh fp (results : Results) (mode : Mode)
  (path : string) (w : World) (output : string) :
  createOutput gh fp results (OutputMode_get mode) = Normal output ->
  let outputPath := fst (checkOutputPath path w) in
  (outputPath = "stdout" \/ fs_error w outputPath output = None ->
   fst (write gh fp results mode path w) = Resolved results)
  /\ (forall err : exn,
         outputPath <> "stdout" ->
         fs_error w outputPath output = Some err ->
         fst (write gh fp results mode path w) = Rejected err).
Proof.
  intros Hout outputPath. unfold write.
  pose proof (checkOutputPath_fs_error path w) as Hfs.
  subst outputPath.
  destruct (checkOutputPath path w) as [outputPath w1]. simpl in *.
  rewrite Hout. split.
  - intros [Hstd | Hok].
    + subst outputPath. reflexivity.
    + destruct (String.eqb outputPath "stdout"); [reflexivity|].
      unfold writeFile, fs_writeFile. rewrite Hfs, Hok. reflexivity.
  - intros err Hnot Herr.
    destruct (String.eqb_spec outputPath "stdout") as [Heq|_];
      [contradiction|].
    unfold writeFile, fs_writeFile. rewrite Hfs, Herr. reflexivity.
Qed.

Lemma write_resolves_with_results_witness :
  fst (write no_report no_formatter minimal_results "json" "out.json"
         empty_world) = Resolved minimal_results
  /\ fst (write no_report no_formatter minimal_results "json" "out.json"
            readonly_world) = Rejected (SystemError "ENOENT").
Proof.
  split.
  - exact (proj1 (write_resolves_with_results no_report no_formatter
                    minimal_results "json" "out.json" empty_world _ eq_refl)
             (or_intror eq_refl)).
  - refine (proj2 (write_resolves_with_results no_report no_formatter
                     minimal_results "json" "out.json" readonly_world _
                     eq_refl) (SystemError "ENOENT") _ eq_refl).
    discriminate.
Defined.

(** C10.  The path [stdout] and the empty path are delivered alike: the
    promise settles the same way, the same bytes reach standard output, and
    the files are left as they were, so no file named [stdout] is created or
    written.  When composition returns an output, it is that output and a
    line feed that reach standard output.  The diagnostic log alone tells
    the two apart: the empty path is reported with a warning. *)
Theorem stdout_path_is_sentinel gh fp (results : Results) (mode : Mode)
  (w : World) :
  let literal := write gh fp results mode "stdout" w in
  let unset := write gh fp results mode "" w in
  fst (checkOutputPath "stdout" w) = fst (checkOutputPath "" w)
  /\ fst literal = fst unset
  /\ stdout (snd literal) = stdout (snd unset)
  /\ files (snd literal) = files w
  /\ files (snd unset) = files w
  /\ file_contents (files (snd literal)) "stdout"
     = file_contents (files w) "stdout"
  /\ match createOutput gh fp results (OutputMode_get mode) with
     | Normal output =>
         fst literal = Resolved results
         /\ stdout (snd literal) = stdout w ++ output ++ LF
     | Throw e => fst literal = Rejected e /\ stdout (snd literal) = stdout w
     end.
Proof.
  unfold write; simpl.
  destruct (createOutput gh fp results (OutputMode_get mode)) as [output|e];
    simpl; repeat split.
Qed.

(** C1, as the code has it.  [write] validates nothing: a mode name other
    than [json] and [html], valid or not, selects the pretty renderer, and
    [write] then settles as it does for the mode [pretty], with the same
    bytes on standard output and in the files. *)
Theorem unknown_mode_renders_pretty gh fp (results : Results) (mode : Mode)
  (path : string) (w : World) :
  mode <> "json" ->
  mode <> "html" ->
  createOutput gh fp results (OutputMode_get mode)
  = createOutput gh fp results (Member pretty)
  /\ fst (write gh fp results mode path w)
     = fst (write gh fp results "pretty" path w)
  /\ stdout (snd (write gh fp results mode path w))
     = stdout (snd (write gh fp results "pretty" path w))
  /\ files (snd (write gh fp results mode path w))
     = files (snd (write gh fp results "pretty" path w)).
Proof.
  intros Hjson Hhtml.
  assert (Hcreate : createOutput gh fp results (OutputMode_get mode)
                    = createOutput gh fp results (Member pretty)).
  { unfold OutputMode_get.
    destruct (String.eqb_spec mode "pretty"); [reflexivity|].
    destruct (String.eqb_spec mode "json"); [contradiction|].
    destruct (String.eqb_spec mode "html"); [contradiction|].
    repeat (match goal with
            | |- context [if ?b then _ else _] => destruct b
            end; try reflexivity). }
  split; [exact Hcreate|].
  unfold write. destruct (checkOutputPath path w) as [outputPath w1].
  rewrite Hcreate.
  change (OutputMode_get "pretty") with (Member pretty).
  destruct (createOutput gh fp results (Member pretty)) as [output|e];
    [|repeat split].
  destruct (String.eqb outputPath "stdout"); [repeat split|].
  unfold writeFile, fs_writeFile.
  destruct (fs_error w1 outputPath output); repeat split.
Qed.

Lemma unknown_mode_renders_pretty_witness :
  "xml" <> "json" /\ "xml" <> "html"
  /\ createOutput no_report no_formatter minimal_results (OutputMode_get "xml")
     = createOutput no_report no_formatter minimal_results (Member pretty)
  /\ files (snd (write no_report no_formatter minimal_results "xml" "out.txt"
                   empty_world))
     = files (snd (write no_report no_formatter minimal_results "pretty"
                     "out.txt" empty_world)).
Proof.
  split; [discriminate|]. split; [discriminate|].
  destruct (unknown_mode_renders_pretty no_report no_formatter minimal_results
              "xml" "out.txt" empty_world) as (H1 & _ & _ & H4);
    [discriminate | discriminate |].
  split; [exact H1 | exact H4].
Defined.

(** C1, as stated, fails: with the mode [xml] and the path [out.txt] the
    pretty output is composed, the promise resolves, and the file holds the
    composed bytes. *)
Lemma invalid_mode_is_composed_and_delivered :
  GetValidOutputOptions = [ "pretty"; "json"; "html" ]
  /\ exists output : string,
       createOutput no_report no_formatter minimal_results
         (OutputMode_get "xml") = Normal output
       /\ output <> ""
       /\ fst (write no_report no_formatter minimal_results "xml" "out.txt"
                 empty_world) = Resolved minimal_results
       /\ file_contents
            (files (snd (write no_report no_formatter minimal_results "xml"
                           "out.txt" empty_world))) "out.txt"
          = Some output.
Proof.
  split; [reflexivity|].
  eexists. split; [vm_compute; reflexivity|].
  split; [discriminate|]. split; vm_compute; reflexivity.
Qed.

(** ** Conversion of fractions to binary64 *)

Lemma pow2_pos (n : Z) : 0 < 2 ^ n \/ (n < 0 /\ 2 ^ n = 0).
Proof.
  destruct (Z_lt_le_dec n 0) as [H|H].
  - right. split; [exact H | apply Z.pow_neg_r; exact H].
  - left. apply Z.pow_pos_nonneg; lia.
Qed.

Lemma pow2_gt0 (n : Z) : 0 <= n -> 0 < 2 ^ n.
Proof. intros; apply Z.pow_pos_nonneg; lia. Qed.

Lemma floor_log2_spec (a b : Z) :
  0 < a -> 0 < b -> log2_frac a b (floor_log2 a b).
Proof.
  intros Ha Hb. unfold floor_log2, log2_frac.
  destruct (Z.log2_spec a Ha) as [La1 La2].
  destruct (Z.log2_spec b Hb) as [Lb1 Lb2].
  pose proof (Z.log2_nonneg a) as Na. pose proof (Z.log2_nonneg b) as Nb.
  set (la := Z.log2 a) in *. set (lb := Z.log2 b) in *.
  rewrite Z.pow_succ_r in La2, Lb2 by assumption.
  destruct (Z.leb_spec 0 (la - lb)) as [Hd|Hd].
  - (* la >= lb *)
    assert (Hla : 2 ^ la = 2 ^ lb * 2 ^ (la - lb)).
    { rewrite <- Z.pow_add_r by lia. f_equal; lia. }
    pose proof (pow2_gt0 (la - lb) Hd) as Pd.
    pose proof (pow2_gt0 lb Nb) as Plb.
    destruct (Z.ltb_spec a (b * 2 ^ (la - lb))) as [Hlt|Hge].
    + destruct (Z.eq_dec la lb) as [Heq|Hne].
      * replace (la - lb - 1) with (-1) by lia.
        replace (la - lb) with 0 in Hlt by lia.
        assert (Hpow : 2 ^ la = 2 ^ lb) by (f_equal; exact Heq).
        rewrite Z.pow_0_r in Hlt.
        rewrite (Z.max_r (-1) 0), (Z.max_l (- -1) 0) by lia.
        rewrite Z.pow_0_r. change (2 ^ (- -1)) with 2. lia.
      * rewrite (Z.max_l (la - lb - 1) 0) by lia.
        rewrite (Z.max_r (- (la - lb - 1)) 0) by lia.
        assert (Hs : 2 ^ (la - lb) = 2 * 2 ^ (la - lb - 1)).
        { rewrite <- Z.pow_succ_r by lia. f_equal; lia. }
        pose proof (pow2_gt0 (la - lb - 1) ltac:(lia)) as Pd1.
        simpl (2 ^ 0). nia.
    + rewrite (Z.max_l (la - lb) 0) by lia.
      rewrite (Z.max_r (- (la - lb)) 0) by lia.
      simpl (2 ^ 0). nia.
  - (* la < lb *)
    assert (Hlb : 2 ^ lb = 2 ^ la * 2 ^ (- (la - lb))).
    { rewrite <- Z.pow_add_r by lia. f_equal; lia. }
    pose proof (pow2_gt0 (- (la - lb)) ltac:(lia)) as Pd.
    pose proof (pow2_gt0 la Na) as Pla.
    destruct (Z.ltb_spec (a * 2 ^ (- (la - lb))) b) as [Hlt|Hge].
    + rewrite (Z.max_r (la - lb - 1) 0) by lia.
      rewrite (Z.max_l (- (la - lb - 1)) 0) by lia.
      replace (- (la - lb - 1)) with (Z.succ (- (la - lb))) by lia.
      rewrite Z.pow_succ_r by lia. simpl (2 ^ 0). nia.
    + rewrite (Z.max_r (la - lb) 0) by lia.
      rewrite (Z.max_l (- (la - lb)) 0) by lia.
      simpl (2 ^ 0). nia.
Qed.

Lemma log2_frac_lt (a b l l' : Z) :
  0 < a -> 0 < b -> log2_frac a b l -> log2_frac a b l' -> ~ l < l'.
Proof.
  unfold log2_frac. intros Ha Hb [_ H1] [H2 _] Hlt.
  destruct (Z_lt_le_dec l 0) as [Hl|Hl];
    destruct (Z_lt_le_dec l' 0) as [Hl'|Hl'].
  - rewrite (Z.max_r l 0), (Z.max_l (- l) 0) in H1 by lia.
    rewrite (Z.max_r l' 0), (Z.max_l (- l') 0) in H2 by lia.
    simpl (2 ^ 0) in *.
    assert (Hs : 2 ^ (- l) = 2 ^ (- l') * 2 ^ (l' - l)).
    { rewrite <- Z.pow_add_r by lia. f_equal; lia. }
    assert (Hp : 2 <= 2 ^ (l' - l)).
    { change 2 with (2 ^ 1) at 1. apply Z.pow_le_mono_r; lia. }
    pose proof (pow2_gt0 (- l') ltac:(lia)). nia.
  - rewrite (Z.max_r l 0), (Z.max_l (- l) 0) in H1 by lia.
    rewrite (Z.max_l l' 0), (Z.max_r (- l') 0) in H2 by lia.
    simpl (2 ^ 0) in *.
    assert (Hp : 2 <= 2 ^ (- l)).
    { change 2 with (2 ^ 1) at 1. apply Z.pow_le_mono_r; lia. }
    pose proof (pow2_gt0 l' Hl'). nia.
  - lia.
  - rewrite (Z.max_l l 0), (Z.max_r (- l) 0) in H1 by lia.
    rewrite (Z.max_l l' 0), (Z.max_r (- l') 0) in H2 by lia.
    simpl (2 ^ 0) in *.
    assert (Hs : 2 ^ l' = 2 ^ l * 2 ^ (l' - l)).
    { rewrite <- Z.pow_add_r by lia. f_equal; lia. }
    assert (Hp : 2 <= 2 ^ (l' - l)).
    { change 2 with (2 ^ 1) at 1. apply Z.pow_le_mono_r; lia. }
    pose proof (pow2_gt0 l Hl). nia.
Qed.

Lemma log2_frac_unique (a b l l' : Z) :
  0 < a -> 0 < b -> log2_frac a b l -> log2_frac a b l' -> l = l'.
Proof.
  intros Ha Hb H H'.
  pose proof (log2_frac_lt a b l l' Ha Hb H H').
  pose proof (log2_frac_lt a b l' l Ha Hb H' H). lia.
Qed.

Lemma log2_frac_scale (c a b l : Z) :
  0 < c -> log2_frac (c * a) (c * b) l -> log2_frac a b l.
Proof.
  unfold log2_frac. intros Hc [H1 H2]. split.
  - apply (Z.mul_le_mono_pos_l _ _ c Hc). lia.
  - apply (Z.mul_lt_mono_pos_l c _ _ Hc). lia.
Qed.

Lemma floor_log2_scale (c a b : Z) :
  0 < c -> 0 < a -> 0 < b -> floor_log2 (c * a) (c * b) = floor_log2 a b.
Proof.
  intros Hc Ha Hb. apply (log2_frac_unique a b); try assumption.
  - apply (log2_frac_scale c); [assumption|].
    apply floor_log2_spec; lia.
  - apply floor_log2_spec; assumption.
Qed.

Lemma div_nearest_even_scale (c num den : Z) :
  0 < c -> 0 < den ->
  div_nearest_even (c * num) (c * den) = div_nearest_even num den.
Proof.
  intros Hc Hden. unfold div_nearest_even.
  rewrite Z.div_mul_cancel_l by lia.
  rewrite Z.mul_mod_distr_l by lia.
  set (r := num mod den).
  destruct (Z.compare_spec (2 * (c * r)) (c * den)),
    (Z.compare_spec (2 * r) den); try reflexivity; nia.
Qed.

Lemma nearest_double_scale (c a b : Z) :
  0 < c -> 0 < b -> nearest_double (c * a) (c * b) = nearest_double a b.
Proof.
  intros Hc Hb. unfold nearest_double.
  destruct (Z.leb_spec a 0) as [Ha|Ha].
  - destruct (Z.leb_spec (c * a) 0) as [_|H]; [reflexivity | nia].
  - destruct (Z.leb_spec (c * a) 0) as [H|_]; [nia|].
    rewrite floor_log2_scale by assumption.
    set (ex := Z.max (floor_log2 a b - 52) (-1074)).
    destruct (Z.leb_spec 0 ex) as [Hex|Hex].
    + replace (c * b * 2 ^ ex) with (c * (b * 2 ^ ex)) by lia.
      rewrite div_nearest_even_scale; [reflexivity | assumption |].
      pose proof (pow2_gt0 ex Hex). nia.
    + replace (c * a * 2 ^ (- ex)) with (c * (a * 2 ^ (- ex))) by lia.
      rewrite div_nearest_even_scale by assumption. reflexivity.
Qed.

(** The conversion does not depend on how the fraction is written. *)
Lemma double_of_Q_frac (a : Z) (b : positive) :
  double_of_Q (a # b) = nearest_double a (Zpos b).
Proof.
  unfold double_of_Q, Qred.
  pose proof (Z.ggcd_correct_divisors a (Zpos b)) as Hdiv.
  pose proof (Z.ggcd_gcd a (Zpos b)) as Hgcd.
  destruct (Z.ggcd a (Zpos b)) as [g [aa bb]]. simpl in *.
  destruct Hdiv as [Haa Hbb].
  assert (Hg : 0 < g).
  { pose proof (Z.gcd_nonneg a (Zpos b)).
    destruct (Z.eq_dec g 0) as [E|E]; [|lia].
    subst g. rewrite E in Hbb. simpl in Hbb. discriminate. }
  assert (Hbpos : 0 < bb) by nia.
  rewrite Z2Pos.id by assumption.
  rewrite Haa, Hbb. symmetry. apply nearest_double_scale; assumption.
Qed.

Lemma double_of_Q_eq (q q' : Q) : q == q' -> double_of_Q q = double_of_Q q'.
Proof.
  intros H. unfold double_of_Q. rewrite (Qred_complete q q' H). reflexivity.
Qed.

Lemma digits2_pos_size (m : positive) : digits2_pos m = Pos.size m.
Proof. induction m; simpl; congruence. Qed.

Lemma log2_digits2 (m : positive) :
  Z.log2 (Zpos m) = Zpos (digits2_pos m) - 1.
Proof.
  rewrite digits2_pos_size.
  destruct m; cbn [Z.log2 Pos.size]; rewrite ?Pos2Z.inj_succ; lia.
Qed.

Lemma div_nearest_even_exact (m d : Z) :
  0 < d -> div_nearest_even (m * d) d = m.
Proof.
  intros Hd. unfold div_nearest_even.
  rewrite Z.div_mul by lia. rewrite Z.mod_mul by lia.
  simpl. destruct d; try lia; reflexivity.
Qed.

(** A binary64 value converts to itself. *)
Lemma nearest_double_exact (m : positive) (e : Z) :
  canonical m e ->
  nearest_double (Zpos m * 2 ^ Z.max e 0) (2 ^ Z.max (- e) 0)
  = S754_finite false m e.
Proof.
  unfold canonical, bounded, canonical_mantissa, fexp, emin, prec, emax.
  intros H. apply andb_prop in H. destruct H as [H1 H2].
  apply Z.eqb_eq in H1. apply Z.leb_le in H2.
  pose proof (log2_digits2 m) as Hlog.
  destruct (Z.log2_spec (Zpos m) ltac:(lia)) as [Lm1 Lm2].
  set (a := Zpos m * 2 ^ Z.max e 0). set (b := 2 ^ Z.max (- e) 0).
  assert (Pa : 0 < 2 ^ Z.max e 0) by (apply pow2_gt0; lia).
  assert (Pb : 0 < b) by (apply pow2_gt0; lia).
  assert (Ha : 0 < a) by (unfold a; nia).
  assert (Hl : floor_log2 a b = Z.log2 (Zpos m) + e).
  { apply (log2_frac_unique a b); try assumption.
    - apply floor_log2_spec; assumption.
    - unfold log2_frac, a, b.
      pose proof (Z.log2_nonneg (Zpos m)) as Nl.
      set (l := Z.log2 (Zpos m)) in *.
      rewrite Z.pow_succ_r in Lm2 by assumption.
      destruct (Z_lt_le_dec e 0) as [He|He].
      + rewrite (Z.max_r e 0), (Z.max_l (- e) 0) by lia. simpl (2 ^ 0).
        rewrite Z.mul_1_r.
        destruct (Z_lt_le_dec (l + e) 0) as [Hle|Hle].
        * rewrite (Z.max_r (l + e) 0), (Z.max_l (- (l + e)) 0) by lia.
          simpl (2 ^ 0).
          assert (Hs : 2 ^ (- e) = 2 ^ l * 2 ^ (- (l + e))).
          { rewrite <- Z.pow_add_r by lia. f_equal; lia. }
          pose proof (pow2_gt0 (- (l + e)) ltac:(lia)).
          pose proof (pow2_gt0 l Nl). nia.
        * rewrite (Z.max_l (l + e) 0), (Z.max_r (- (l + e)) 0) by lia.
          simpl (2 ^ 0).
          assert (Hs : 2 ^ l = 2 ^ (- e) * 2 ^ (l + e)).
          { rewrite <- Z.pow_add_r by lia. f_equal; lia. }
          pose proof (pow2_gt0 (l + e) ltac:(lia)).
          pose proof (pow2_gt0 (- e) ltac:(lia)). nia.
      + rewrite (Z.max_l e 0), (Z.max_r (- e) 0) by lia. simpl (2 ^ 0).
        rewrite (Z.max_l (l + e) 0), (Z.max_r (- (l + e)) 0) by lia.
        simpl (2 ^ 0).
        rewrite Z.pow_add_r by lia.
        pose proof (pow2_gt0 e He). pose proof (pow2_gt0 l Nl). nia. }
  unfold nearest_double.
  destruct (Z.leb_spec a 0) as [Hle|_]; [lia|].
  rewrite Hl.
  assert (Hex : Z.max (Z.log2 (Zpos m) + e - 52) (-1074) = e) by lia.
  rewrite Hex.
  assert (Hmant : (if 0 <=? e then div_nearest_even a (b * 2 ^ e)
                   else div_nearest_even (a * 2 ^ (- e)) b) = Zpos m).
  { unfold a, b. destruct (Z.leb_spec 0 e) as [He|He].
    - rewrite (Z.max_l e 0), (Z.max_r (- e) 0) by lia. simpl (2 ^ 0).
      rewrite Z.mul_1_l. apply div_nearest_even_exact. apply pow2_gt0; lia.
    - rewrite (Z.max_r e 0), (Z.max_l (- e) 0) by lia. simpl (2 ^ 0).
      rewrite Z.mul_1_r. apply div_nearest_even_exact.
      apply pow2_gt0; lia. }
  rewrite Hmant.
  assert (Hlt : Zpos m < 2 ^ 53).
  { eapply Z.lt_le_trans; [exact Lm2|]. apply Z.pow_le_mono_r; lia. }
  destruct (Z.eqb_spec (Zpos m) (2 ^ 53)) as [E|_]; [lia|].
  destruct (Z.eqb_spec (Zpos m) 0) as [E|_]; [lia|].
  destruct (Z.ltb_spec 971 e) as [E|_]; [lia|].
  reflexivity.
Qed.

(** ** Decimal digits *)

Lemma all_digits_app (s1 s2 : string) :
  all_digits (s1 ++ s2) = all_digits s1 && all_digits s2.
Proof.
  induction s1 as [|c s1 IH]; simpl; [reflexivity|].
  rewrite IH, andb_assoc. reflexivity.
Qed.

Lemma all_digits_take (n : nat) (s : string) :
  all_digits s = true -> all_digits (take n s) = true.
Proof.
  revert s. induction n as [|n IH]; intros [|c s]; simpl; try reflexivity.
  intros H. apply andb_prop in H. destruct H as [H1 H2].
  rewrite H1, IH by assumption. reflexivity.
Qed.

Lemma all_digits_drop (n : nat) (s : string) :
  all_digits s = true -> all_digits (drop n s) = true.
Proof.
  revert s. induction n as [|n IH]; intros [|c s]; simpl; try tauto.
  intros H. apply andb_prop in H. destruct H as [H1 H2]. apply IH, H2.
Qed.

Lemma all_digits_zeros (z : Z) : all_digits (zeros z) = true.
Proof.
  unfold zeros. induction (Z.to_nat z) as [|n IH]; simpl; [reflexivity|].
  exact IH.
Qed.

Lemma span_digits_app (d rest : string) :
  all_digits d = true ->
  match rest with
  | EmptyString => True
  | String c _ => is_digit c = false
  end ->
  span_digits (d ++ rest) = (d, rest).
Proof.
  intros Hd Hrest. induction d as [|c d IH]; simpl in *.
  - destruct rest as [|c r]; [reflexivity|]. simpl. rewrite Hrest. reflexivity.
  - apply andb_prop in Hd. destruct Hd as [Hc Hd].
    rewrite Hc, (IH Hd). reflexivity.
Qed.

Lemma digits_value_app (acc : Z) (s1 s2 : string) :
  digits_value acc (s1 ++ s2) = digits_value (digits_value acc s1) s2.
Proof.
  revert acc. induction s1 as [|c s1 IH]; intros acc; simpl;
    [reflexivity | apply IH].
Qed.

Lemma digits_value_zeros (acc z : Z) :
  0 <= z -> digits_value acc (zeros z) = acc * 10 ^ z.
Proof.
  intros Hz. unfold zeros.
  rewrite <- (Z2Nat.id z Hz) at 2. clear Hz.
  revert acc. induction (Z.to_nat z) as [|n IH]; intros acc.
  - simpl. lia.
  - cbn [repeat_string append digits_value]. rewrite IH.
    change (digit_value "0") with 0.
    rewrite Nat2Z.inj_succ, Z.pow_succ_r by lia. lia.
Qed.

Lemma length_zeros (z : Z) : String.length (zeros z) = Z.to_nat z.
Proof.
  unfold zeros. induction (Z.to_nat z) as [|n IH]; simpl; congruence.
Qed.

Lemma digits_value_uint_acc (d : Decimal.uint) (acc : positive) :
  digits_value (Zpos acc) (NilEmpty.string_of_uint d)
  = Zpos (Pos.of_uint_acc d acc).
Proof.
  revert acc. induction d; intros acc; cbn [NilEmpty.string_of_uint
    digits_value Pos.of_uint_acc]; try reflexivity; rewrite <- IHd;
    f_equal;
    match goal with
    | |- context [digit_value ?c] =>
        let v := eval vm_compute in (digit_value c) in
        change (digit_value c) with v
    end; lia.
Qed.

Lemma digits_value_uint (d : Decimal.uint) :
  digits_value 0 (NilEmpty.string_of_uint d) = Z.of_N (Pos.of_uint d).
Proof.
  induction d; cbn [NilEmpty.string_of_uint digits_value Pos.of_uint];
    try reflexivity; try exact IHd;
    match goal with
    | |- context [10 * 0 + digit_value ?c] =>
        let v := eval vm_compute in (10 * 0 + digit_value c) in
        change (10 * 0 + digit_value c) with v
    end; rewrite digits_value_uint_acc; reflexivity.
Qed.

Lemma all_digits_uint (d : Decimal.uint) :
  all_digits (NilEmpty.string_of_uint d) = true.
Proof. induction d; simpl; auto. Qed.

Lemma decimal_uint (z : Z) :
  decimal z = NilEmpty.string_of_uint (N.to_uint (Z.to_N z)).
Proof.
  unfold decimal, NilZero.string_of_uint.
  destruct (N.to_uint (Z.to_N z)) eqn:E; try reflexivity.
  exfalso. destruct (Z.to_N z); simpl in E; [discriminate|].
  exact (Unsigned.to_uint_nonnil _ E).
Qed.

Lemma digits_value_decimal (z : Z) : 0 <= z -> digits_value 0 (decimal z) = z.
Proof.
  intros Hz. rewrite decimal_uint, digits_value_uint.
  change (Pos.of_uint (N.to_uint (Z.to_N z)))
    with (N.of_uint (N.to_uint (Z.to_N z))).
  rewrite DecimalN.Unsigned.of_to. apply Z2N.id, Hz.
Qed.

Lemma all_digits_decimal (z : Z) : all_digits (decimal z) = true.
Proof. rewrite decimal_uint. apply all_digits_uint. Qed.

Lemma nzhead_not_D0 (d l : Decimal.uint) : Decimal.nzhead d <> Decimal.D0 l.
Proof. induction d; simpl; try discriminate. exact IHd. Qed.

(** The digits of a positive integer do not start with a zero. *)
Lemma decimal_head (z : Z) :
  0 < z -> exists c s, decimal z = String c s /\ is_digit c = true
                       /\ Ascii.eqb c "0" = false.
Proof.
  intros Hz. rewrite decimal_uint.
  pose proof (DecimalN.Unsigned.to_of (N.to_uint (Z.to_N z))) as Hn.
  rewrite DecimalN.Unsigned.of_to in Hn.
  destruct (Z.to_N z) as [|p] eqn:Ep; [lia|].
  destruct (N.to_uint (N.pos p)) as [|l|l|l|l|l|l|l|l|l|l] eqn:E;
    simpl; try (eexists; eexists; repeat split; reflexivity).
  - exfalso. simpl in E. exact (Unsigned.to_uint_nonnil _ E).
  - exfalso. unfold Decimal.unorm in Hn. simpl in Hn.
    destruct (Decimal.nzhead l) eqn:El; try discriminate.
    + injection Hn as Hn. subst l. simpl in E.
      exact (Unsigned.to_uint_nonzero _ E).
    + exact (nzhead_not_D0 l _ El).
Qed.

Lemma valid_int_decimal (z : Z) : 0 <= z -> valid_int (decimal z) = true.
Proof.
  intros Hz. destruct (Z.eq_dec z 0) as [->|Hne]; [reflexivity|].
  destruct (decimal_head z ltac:(lia)) as (c & s & -> & _ & Hc).
  simpl. destruct s; [reflexivity|]. rewrite Hc. reflexivity.
Qed.

Lemma truthy_decimal (z : Z) : truthy (decimal z) = true.
Proof.
  rewrite decimal_uint.
  destruct (N.to_uint (Z.to_N z)) eqn:E; try reflexivity.
  exfalso. destruct (Z.to_N z); simpl in E; [discriminate|].
  exact (Unsigned.to_uint_nonnil _ E).
Qed.

(** ** Powers of ten as rationals *)

Lemma pow10_nonneg (z : Z) : 0 <= z -> pow10 z == inject_Z (10 ^ z).
Proof.
  intros Hz. unfold pow10. rewrite Zpower_Qpower by assumption. reflexivity.
Qed.

Lemma pow10_neg (z : Z) : 0 <= z -> pow10 (- z) == / inject_Z (10 ^ z).
Proof.
  intros Hz. unfold pow10. rewrite Qpower_opp.
  rewrite Zpower_Qpower by assumption. reflexivity.
Qed.

Lemma inject_Z_nonzero (z : Z) : 0 < z -> ~ inject_Z z == 0.
Proof. intros Hz H. unfold Qeq in H. simpl in H. lia. Qed.

(** ** The digits of a number convert back to it *)

Lemma is_finite_eq (m : positive) (e : Z) (f : spec_float) :
  is_finite m e f = true -> f = S754_finite false m e.
Proof.
  destruct f as [| | |[|] m' e']; simpl; try discriminate.
  intros H. apply andb_prop in H. destruct H as [H1 H2].
  apply Pos.eqb_eq in H1. apply Z.eqb_eq in H2. subst. reflexivity.
Qed.

Lemma digits_of_length_spec (m : positive) (e : Z) (v : Q) (p k s n : Z) :
  digits_of_length m e v p k = Some (s, n) -> denotes m e s k n = true.
Proof.
  unfold digits_of_length.
  set (scaled := Qred (v * pow10 (k - p))).
  set (lo := Qnum scaled / Zpos (Qden scaled)).
  set (hi := if lo + 1 =? 10 ^ k then (10 ^ (k - 1), p + 1) else (lo + 1, p)).
  destruct (denotes m e lo k p) eqn:Hlo;
    destruct (denotes m e (fst hi) k (snd hi)) eqn:Hhi; intros H;
    try discriminate.
  - destruct (2 * (Qnum scaled mod Zpos (Qden scaled)) ?= Zpos (Qden scaled));
      [destruct (Z.even lo)| |]; inversion H; subst;
      try assumption;
      match goal with
      | E : hi = (s, n) |- _ => rewrite E in Hhi; exact Hhi
      | E : (s, n) = hi |- _ => rewrite <- E in Hhi; exact Hhi
      end.
  - inversion H; subst; assumption.
  - inversion H as [E]. rewrite E in Hhi. exact Hhi.
Qed.

Lemma shortest_from_spec (fuel : nat) (m : positive) (e : Z) (v : Q)
  (p k s k' n : Z) :
  shortest_from fuel m e v p k = Some (s, k', n) -> denotes m e s k' n = true.
Proof.
  revert k. induction fuel as [|fuel IH]; intros k; simpl; [discriminate|].
  destruct (digits_of_length m e v p k) as [[s0 n0]|] eqn:E.
  - intros H. inversion H; subst. eapply digits_of_length_spec; eassumption.
  - apply IH.
Qed.

Lemma exact_digits_value (m : positive) (e : Z) :
  inject_Z (if 0 <=? e then Zpos m * 2 ^ e else Zpos m * 5 ^ (- e))
    * pow10 (Z.min e 0)
  == (Zpos m * 2 ^ Z.max e 0) # Z.to_pos (2 ^ Z.max (- e) 0).
Proof.
  destruct (Z.leb_spec 0 e) as [He|He].
  - rewrite (Z.min_r e 0), (Z.max_l e 0), (Z.max_r (- e) 0) by lia.
    change (pow10 0) with 1%Q. change (Z.to_pos (2 ^ 0)) with 1%positive.
    rewrite Qmult_1_r. reflexivity.
  - rewrite (Z.min_l e 0), (Z.max_r e 0), (Z.max_l (- e) 0) by lia.
    rewrite Z.pow_0_r, Z.mul_1_r.
    replace e with (- - e) at 2 by lia.
    rewrite pow10_neg by lia.
    rewrite (Qmake_Qdiv (Zpos m) (Z.to_pos (2 ^ (- e)))).
    rewrite Z2Pos.id by (apply pow2_gt0; lia).
    replace (10 ^ (- e)) with (2 ^ (- e) * 5 ^ (- e))
      by (rewrite <- Z.pow_mul_l; reflexivity).
    rewrite !inject_Z_mult.
    assert (H2 : ~ inject_Z (2 ^ (- e)) == 0)
      by (apply inject_Z_nonzero, pow2_gt0; lia).
    assert (H5 : ~ inject_Z (5 ^ (- e)) == 0)
      by (apply inject_Z_nonzero, Z.pow_pos_nonneg; lia).
    field. split; assumption.
Qed.

Lemma exact_digits_spec (m : positive) (e : Z) :
  canonical m e ->
  forall s k n, exact_digits m e = (s, k, n) -> denotes m e s k n = true.
Proof.
  intros Hc s k n. unfold exact_digits.
  remember (if 0 <=? e then Zpos m * 2 ^ e else Zpos m * 5 ^ (- e)) as s0
    eqn:Hs.
  intros H. injection H as <- <- <-.
  unfold denotes, has_digits.
  replace (Z.of_nat (String.length (decimal s0)) + Z.min e 0
           - Z.of_nat (String.length (decimal s0))) with (Z.min e 0) by lia.
  rewrite Z.eqb_refl, andb_true_r.
  assert (Hpos : 0 < s0).
  { rewrite Hs. destruct (Z.leb_spec 0 e) as [He|He].
    - pose proof (pow2_gt0 e He). nia.
    - pose proof (Z.pow_pos_nonneg 5 (- e) ltac:(lia) ltac:(lia)). nia. }
  apply Z.ltb_lt in Hpos. rewrite Hpos. cbn [andb].
  rewrite Hs.
  rewrite (double_of_Q_eq _ _ (exact_digits_value m e)).
  rewrite double_of_Q_frac.
  rewrite Z2Pos.id by (apply pow2_gt0; lia).
  rewrite (nearest_double_exact m e Hc).
  simpl. rewrite Pos.eqb_refl, Z.eqb_refl. reflexivity.
Qed.

Lemma shortest_digits_spec (m : positive) (e : Z) :
  canonical m e ->
  forall s k n, shortest_digits m e = (s, k, n) -> denotes m e s k n = true.
Proof.
  intros Hc s k n. unfold shortest_digits.
  destruct (shortest_from 17 m e _ _ 1) as [[[s0 k0] n0]|] eqn:E.
  - intros H. inversion H; subst. eapply shortest_from_spec; eassumption.
  - apply exact_digits_spec; assumption.
Qed.

(** ** Reading back the text of a number *)

Lemma ends_number_digit (rest : string) :
  ends_number rest = true ->
  match rest with
  | EmptyString => True
  | String c _ => is_digit c = false
  end.
Proof.
  destruct rest as [|c r]; simpl; [trivial|].
  intros H. apply negb_true_iff in H.
  destruct (is_digit c); [discriminate | reflexivity].
Qed.

Lemma parse_fraction_none (rest : string) :
  ends_number rest = true -> parse_fraction rest = Some ("", rest).
Proof.
  destruct rest as [|c r]; simpl; [reflexivity|].
  intros H. apply negb_true_iff in H.
  destruct (Ascii.eqb c "."); [|reflexivity].
  rewrite !orb_true_r in H. simpl in H.
  destruct (is_digit c); discriminate.
Qed.

Lemma parse_exponent_none (rest : string) :
  ends_number rest = true -> parse_exponent rest = Some (0, rest).
Proof.
  destruct rest as [|c r]; simpl; [reflexivity|].
  intros H. apply negb_true_iff in H.
  destruct (Ascii.eqb c "e"), (Ascii.eqb c "E"); try reflexivity;
    rewrite ?orb_true_r in H; discriminate.
Qed.

Lemma parse_fraction_digits (d rest : string) :
  all_digits d = true -> truthy d = true ->
  match rest with
  | EmptyString => True
  | String c _ => is_digit c = false
  end ->
  parse_fraction ("." ++ d ++ rest) = Some (d, rest).
Proof.
  intros Hd Ht Hr. cbn [append parse_fraction].
  change (Ascii.eqb "." ".") with true. cbv iota.
  rewrite (span_digits_app d rest Hd Hr).
  rewrite Ht. reflexivity.
Qed.

Lemma parse_exponent_text (ex : Z) (rest : string) :
  ends_number rest = true ->
  parse_exponent (exponent_text ex ++ rest) = Some (ex, rest).
Proof.
  intros Hr. unfold exponent_text. rewrite !append_assoc.
  cbn [append parse_exponent]. change (Ascii.eqb "e" "e") with true.
  cbn [orb].
  assert (Hspan : span_digits (decimal (Z.abs ex) ++ rest)
                  = (decimal (Z.abs ex), rest)).
  { apply span_digits_app; [apply all_digits_decimal|].
    apply ends_number_digit, Hr. }
  destruct (Z.ltb_spec ex 0) as [Hneg|Hpos]; cbn [append];
    [change (Ascii.eqb "-" "-") with true
    |change (Ascii.eqb "+" "-") with false;
     change (Ascii.eqb "+" "+") with true]; cbv iota;
    rewrite Hspan, truthy_decimal, digits_value_decimal by lia;
    f_equal; f_equal; lia.
Qed.

Lemma is_digit_not_minus (c : ascii) :
  is_digit c = true -> Ascii.eqb c "-" = false.
Proof.
  intros H. destruct (Ascii.eqb_spec c "-") as [->|]; [discriminate|].
  reflexivity.
Qed.

Lemma is_digit_ends (c : ascii) (r : string) :
  Ascii.eqb c "." = true \/ Ascii.eqb c "e" = true ->
  match String c r with
  | EmptyString => True
  | String c' _ => is_digit c' = false
  end.
Proof.
  intros [H|H]; apply Ascii.eqb_eq in H; subst; reflexivity.
Qed.

Lemma length_decimal_pos (z : Z) : (0 < String.length (decimal z))%nat.
Proof.
  pose proof (truthy_decimal z) as H.
  destruct (decimal z); [discriminate | simpl; lia].
Qed.

Lemma valid_int_head (c : ascii) (s : string) :
  Ascii.eqb c "0" = false -> valid_int (String c s) = true.
Proof. intros H. simpl. destruct s; [reflexivity|]. rewrite H. reflexivity. Qed.

Lemma parse_decimal_layout (s k n : Z) (rest : string) :
  0 < s ->
  Z.of_nat (String.length (decimal s)) = k ->
  ends_number rest = true ->
  exists mantissa x10,
    parse_decimal (layout s k n ++ rest) = Some (mantissa, x10, rest)
    /\ inject_Z mantissa * pow10 x10 == inject_Z s * pow10 (n - k).
Proof.
  intros Hs Hk Hr.
  destruct (decimal_head s Hs) as (c & t & Hds & Hc & Hc0).
  pose proof (all_digits_decimal s) as Hall.
  pose proof (digits_value_decimal s ltac:(lia)) as Hval.
  pose proof (ends_number_digit rest Hr) as Hrd.
  unfold layout, parse_decimal. fold (exponent_text (n - 1)).
  destruct ((k <=? n) && (n <=? 21)) eqn:C1; to_prop.
  { (* digits followed by zeros *)
    rewrite (span_digits_app (decimal s ++ zeros (n - k)) rest);
      [|rewrite all_digits_app, Hall, all_digits_zeros; reflexivity
       |exact Hrd].
    replace (valid_int (decimal s ++ zeros (n - k))) with true
      by (rewrite Hds; symmetry; apply valid_int_head, Hc0).
    rewrite (parse_fraction_none rest Hr), (parse_exponent_none rest Hr).
    eexists; eexists; split; [reflexivity|].
    rewrite append_nil_r, digits_value_app, Hval,
      digits_value_zeros by lia.
    change (Z.of_nat (String.length "")) with 0.
    change (pow10 (0 - 0)) with 1%Q.
    rewrite pow10_nonneg by lia. rewrite inject_Z_mult. ring. }
  destruct ((0 <? n) && (n <=? 21)) eqn:C2; to_prop.
  { (* a decimal point inside the digits *)
    assert (Hnk : n < k) by lia.
    rewrite !append_assoc.
    rewrite (span_digits_app (take (Z.to_nat n) (decimal s)));
      [|apply all_digits_take, Hall | reflexivity].
    replace (valid_int (take (Z.to_nat n) (decimal s))) with true.
    2:{ rewrite Hds. destruct (Z.to_nat n) as [|j] eqn:Ej; [lia|].
        symmetry. apply valid_int_head, Hc0. }
    rewrite (parse_fraction_digits (drop (Z.to_nat n) (decimal s)) rest);
      [|apply all_digits_drop, Hall | | exact Hrd].
    2:{ pose proof (length_drop (Z.to_nat n) (decimal s)) as Hl.
        destruct (drop (Z.to_nat n) (decimal s)); [simpl in Hl; lia|].
        reflexivity. }
    rewrite (parse_exponent_none rest Hr).
    eexists; eexists; split; [reflexivity|].
    rewrite take_drop, Hval, length_drop.
    replace (0 - Z.of_nat (String.length (decimal s) - Z.to_nat n))
      with (n - k) by lia.
    reflexivity. }
  destruct ((-6 <? n) && (n <=? 0)) eqn:C3; to_prop.
  { (* zeros between the point and the digits *)
    rewrite !append_assoc. cbn [append span_digits].
    change (is_digit "0") with true. change (is_digit ".") with false.
    cbv iota. cbn [valid_int].
    change (String "." (zeros (- n) ++ decimal s ++ rest))
      with ("." ++ zeros (- n) ++ decimal s ++ rest).
    rewrite <- (append_assoc (zeros (- n))).
    rewrite (parse_fraction_digits (zeros (- n) ++ decimal s) rest);
      [| rewrite all_digits_app, Hall, all_digits_zeros; reflexivity
       | | exact Hrd].
    2:{ rewrite Hds. destruct (zeros (- n)); reflexivity. }
    rewrite (parse_exponent_none rest Hr).
    eexists; eexists; split; [reflexivity|].
    cbn [append digits_value]. change (digit_value "0") with 0.
    rewrite digits_value_app, digits_value_zeros by lia.
    replace ((10 * 0 + 0) * 10 ^ (- n)) with 0 by lia.
    rewrite Hval, length_append, length_zeros.
    replace (0 - Z.of_nat (Z.to_nat (- n) + String.length (decimal s)))
      with (n - k) by lia.
    reflexivity. }
  assert (Hex : forall r, match exponent_text (n - 1) ++ r with
                          | EmptyString => True
                          | String c' _ => is_digit c' = false
                          end) by reflexivity.
  destruct (k =? 1) eqn:C4; to_prop.
  { (* one digit and an exponent *)
    rewrite !append_assoc.
    rewrite (span_digits_app (decimal s)); [|exact Hall | apply Hex].
    rewrite (valid_int_decimal s) by lia.
    change (parse_fraction (exponent_text (n - 1) ++ rest))
      with (Some ("", exponent_text (n - 1) ++ rest)).
    cbv beta iota.
    rewrite (parse_exponent_text (n - 1) rest Hr).
    eexists; eexists; split; [reflexivity|].
    rewrite append_nil_r, Hval.
    replace (n - 1 - Z.of_nat (String.length "")) with (n - k)
      by (simpl; lia).
    reflexivity. }
  (* a digit, the point, the other digits and an exponent *)
  pose proof (length_decimal_pos s) as Hlen.
  rewrite !append_assoc.
  rewrite (span_digits_app (take 1 (decimal s)));
    [|apply all_digits_take, Hall | reflexivity].
  replace (valid_int (take 1 (decimal s))) with true
    by (rewrite Hds; reflexivity).
  rewrite (parse_fraction_digits (drop 1 (decimal s)));
    [|apply all_digits_drop, Hall | | apply Hex].
  2:{ pose proof (length_drop 1 (decimal s)) as Hl.
      destruct (drop 1 (decimal s)); [simpl in Hl; lia | reflexivity]. }
  rewrite (parse_exponent_text (n - 1) rest Hr).
  eexists; eexists; split; [reflexivity|].
  rewrite take_drop, Hval, length_drop.
  replace (n - 1 - Z.of_nat (String.length (decimal s) - 1)) with (n - k)
    by lia.
  reflexivity.
Qed.

Lemma layout_head (s k n : Z) :
  0 < s -> exists c t, layout s k n = String c t /\ is_digit c = true.
Proof.
  intros Hs. destruct (decimal_head s Hs) as (c & t & Hds & Hc & _).
  unfold layout. rewrite Hds.
  destruct ((k <=? n) && (n <=? 21)); [eexists; eexists; split;
    [reflexivity | exact Hc]|].
  destruct ((0 <? n) && (n <=? 21)) eqn:C2.
  { apply andb_prop in C2. destruct C2 as [C2 _]. apply Z.ltb_lt in C2.
    destruct (Z.to_nat n) eqn:En; [lia|].
    eexists; eexists; split; [reflexivity | exact Hc]. }
  destruct ((-6 <? n) && (n <=? 0));
    [eexists; eexists; split; reflexivity|].
  destruct (k =? 1); eexists; eexists; split; try reflexivity; exact Hc.
Qed.

Lemma parse_number_zero (rest : string) :
  ends_number rest = true ->
  parse_number ("0" ++ rest) = Some (0%float, rest).
Proof.
  intros Hr. unfold parse_number. cbn [append].
  change (Ascii.eqb "0" "-") with false. cbv iota.
  unfold parse_decimal.
  change (String "0" rest) with ("0" ++ rest).
  rewrite (span_digits_app "0" rest eq_refl (ends_number_digit rest Hr)).
  cbn [valid_int].
  rewrite (parse_fraction_none rest Hr), (parse_exponent_none rest Hr).
  reflexivity.
Qed.

(** Reading the text of a finite number gives the number back. *)
Lemma parse_number_toString (x : number) (rest : string) :
  finite x = true ->
  ends_number rest = true ->
  parse_number (Number_toString x ++ rest) = Some (positive_zero x, rest).
Proof.
  intros Hfin Hr.
  pose proof (Prim2SF_valid x) as Hvalid.
  pose proof (SF2Prim_Prim2SF x) as Hback.
  unfold Number_toString, finite, positive_zero in *.
  destruct (Prim2SF x) as [sg|sg| |sg m e] eqn:E; try discriminate.
  - apply parse_number_zero, Hr.
  - destruct (shortest_digits m e) as [[s k] n] eqn:Es.
    pose proof (shortest_digits_spec m e Hvalid s k n Es) as Hden.
    unfold denotes, has_digits in Hden.
    apply andb_prop in Hden. destruct Hden as [Hdig Hfinite].
    apply andb_prop in Hdig. destruct Hdig as [Hs Hk].
    apply Z.ltb_lt in Hs. apply Z.eqb_eq in Hk.
    apply is_finite_eq in Hfinite.
    destruct (parse_decimal_layout s k n rest Hs Hk Hr)
      as (mantissa & x10 & Hparse & Hq).
    destruct (layout_head s k n Hs) as (c & t & Hl & Hc).
    assert (Hnum : number_of_decimal sg mantissa x10 = x).
    { unfold number_of_decimal.
      rewrite (double_of_Q_eq _ _ Hq), Hfinite. exact Hback. }
    rewrite append_assoc.
    destruct sg.
    + unfold parse_number. cbn [append].
      change (Ascii.eqb "-" "-") with true.
      cbv iota. rewrite Hparse, Hnum. reflexivity.
    + cbn [append]. unfold parse_number.
      rewrite Hl in *. cbn [append] in *.
      rewrite (is_digit_not_minus c Hc). rewrite Hparse, Hnum. reflexivity.
Qed.

(** ** Reading back a quoted string *)

Lemma parse_chars_quote_char (c : ascii) (rest : string) :
  parse_chars (quote_char c ++ rest) = prepend (String c "") (parse_chars rest).
Proof.
  destruct c as [[|] [|] [|] [|] [|] [|] [|] [|]]; reflexivity.
Qed.

Lemma parse_chars_quote (s rest : string) :
  parse_chars (quote_chars s ++ String DQUOTE rest) = Some (s, rest).
Proof.
  induction s as [|c s IH]; [reflexivity|].
  cbn [quote_chars]. rewrite append_assoc, parse_chars_quote_char, IH.
  reflexivity.
Qed.

(** ** Induction on values *)

Lemma jsvalue_ind (P : jsvalue -> Prop) :
  P JNull ->
  (forall b, P (JBoolean b)) ->
  (forall x, P (JNumber x)) ->
  (forall s, P (JString s)) ->
  (forall l, Forall P l -> P (JArray l)) ->
  (forall ms, Forall (fun kv => P (snd kv)) ms -> P (JObject ms)) ->
  forall v, P v.
Proof.
  intros Hnull Hbool Hnum Hstr Harr Hobj.
  fix IH 1. intros [ |b|x|s|l|ms].
  - exact Hnull.
  - apply Hbool.
  - apply Hnum.
  - apply Hstr.
  - apply Harr. induction l as [|v l IHl]; constructor; [apply IH | exact IHl].
  - apply Hobj. induction ms as [|[k v] ms IHms]; constructor;
      [apply IH | exact IHms].
Qed.

(** ** White space *)

Lemma skip_ws_app (w s : string) :
  all_ws w = true -> skip_ws (w ++ s) = skip_ws s.
Proof.
  induction w as [|c w IH]; simpl; [reflexivity|].
  intros H. apply andb_prop in H. destruct H as [Hc Hw].
  rewrite Hc. apply IH, Hw.
Qed.

Lemma skip_ws_head (c : ascii) (s : string) :
  is_ws c = false -> skip_ws (String c s) = String c s.
Proof. intros H. simpl. rewrite H. reflexivity. Qed.

Lemma all_ws_app (s1 s2 : string) :
  all_ws (s1 ++ s2) = all_ws s1 && all_ws s2.
Proof.
  induction s1 as [|c s1 IH]; simpl; [reflexivity|].
  rewrite IH, andb_assoc. reflexivity.
Qed.

(** ** The parser, one step at a time *)

Lemma parse_value_array (f : nat) (rest : string) :
  parse_value (S f) (String "[" rest)
  = match skip_ws rest with
    | String c' rest' =>
        if Ascii.eqb c' "]" then Some (JArray [], rest')
        else
          match parse_elements f (String c' rest') with
          | Some (vs, r) => Some (JArray vs, r)
          | None => None
          end
    | EmptyString => None
    end.
Proof. reflexivity. Qed.

Lemma parse_value_object (f : nat) (rest : string) :
  parse_value (S f) (String "{" rest)
  = match skip_ws rest with
    | String c' rest' =>
        if Ascii.eqb c' "}" then Some (JObject [], rest')
        else
          match parse_members f (String c' rest') with
          | Some (ms, r) => Some (object_of ms, r)
          | None => None
          end
    | EmptyString => None
    end.
Proof. reflexivity. Qed.

Lemma parse_value_string (f : nat) (rest : string) :
  parse_value (S f) (String DQUOTE rest)
  = match parse_chars rest with
    | Some (str, r) => Some (JString str, r)
    | None => None
    end.
Proof. reflexivity. Qed.

Lemma parse_elements_S (f : nat) (s : string) :
  parse_elements (S f) s
  = match parse_value f (skip_ws s) with
    | Some (v, s1) =>
        match skip_ws s1 with
        | String c s2 =>
            if Ascii.eqb c "," then
              match parse_elements f s2 with
              | Some (vs, s3) => Some (v :: vs, s3)
              | None => None
              end
            else if Ascii.eqb c "]" then Some ([ v ], s2)
            else None
        | EmptyString => None
        end
    | None => None
    end.
Proof. reflexivity. Qed.

Lemma parse_members_S (f : nat) (s : string) :
  parse_members (S f) s
  = match skip_ws s with
    | String q s0 =>
        if Ascii.eqb q DQUOTE then
          match parse_chars s0 with
          | Some (k, s1) =>
              match skip_ws s1 with
              | String c s2 =>
                  if Ascii.eqb c ":" then
                    match parse_value f (skip_ws s2) with
                    | Some (v, s3) =>
                        match skip_ws s3 with
                        | String c' s4 =>
                            if Ascii.eqb c' "," then
                              match parse_members f s4 with
                              | Some (ms, s5) => Some ((k, v) :: ms, s5)
                              | None => None
                              end
                            else if Ascii.eqb c' "}" then
                              Some ([ (k, v) ], s4)
                            else None
                        | EmptyString => None
                        end
                    | None => None
                    end
                  else None
              | EmptyString => None
              end
          | None => None
          end
        else None
    | EmptyString => None
    end.
Proof. reflexivity. Qed.

Lemma parse_elements_ws (f : nat) (w s : string) :
  all_ws w = true -> parse_elements f (w ++ s) = parse_elements f s.
Proof.
  intros Hw. destruct f as [|f]; [reflexivity|].
  rewrite !parse_elements_S, (skip_ws_app w s Hw). reflexivity.
Qed.

Lemma parse_members_ws (f : nat) (w s : string) :
  all_ws w = true -> parse_members f (w ++ s) = parse_members f s.
Proof.
  intros Hw. destruct f as [|f]; [reflexivity|].
  rewrite !parse_members_S, (skip_ws_app w s Hw). reflexivity.
Qed.

(** ** The first character of a value's text *)

Lemma starts_number_dispatch (c : ascii) :
  starts_number c = true ->
  Ascii.eqb c "{" = false /\ Ascii.eqb c "[" = false
  /\ Ascii.eqb c DQUOTE = false /\ is_ws c = false
  /\ Ascii.eqb c "]" = false.
Proof.
  destruct c as [[|] [|] [|] [|] [|] [|] [|] [|]];
    intros H; try discriminate H; repeat split.
Qed.

Lemma Number_toString_head (x : number) :
  finite x = true ->
  exists c t, Number_toString x = String c t /\ starts_number c = true.
Proof.
  intros Hfin. pose proof (Prim2SF_valid x) as Hvalid.
  unfold Number_toString, finite in *.
  destruct (Prim2SF x) as [sg|sg| |sg m e] eqn:E; try discriminate.
  - exists "0"%char, "". split; reflexivity.
  - destruct (shortest_digits m e) as [[s k] n] eqn:Es.
    pose proof (shortest_digits_spec m e Hvalid s k n Es) as Hden.
    unfold denotes, has_digits in Hden.
    apply andb_prop in Hden. destruct Hden as [Hdig _].
    apply andb_prop in Hdig. destruct Hdig as [Hs _].
    apply Z.ltb_lt in Hs.
    destruct (layout_head s k n Hs) as (c & t & Hl & Hc).
    destruct sg.
    + exists "-"%char, (layout s k n). split; reflexivity.
    + exists c, t. split; [exact Hl|]. unfold starts_number.
      rewrite Hc. apply orb_true_r.
Qed.

Lemma serialize_head (gap indent : string) (v : jsvalue) :
  serializable v = true ->
  exists c t, serialize gap indent v = String c t
              /\ is_ws c = false /\ Ascii.eqb c "]" = false.
Proof.
  intros Hs. destruct v as [ |b|x|s|l|ms].
  - exists "n"%char, "ull". repeat split.
  - destruct b; [exists "t"%char, "rue" | exists "f"%char, "alse"];
      repeat split.
  - simpl in Hs. cbn [serialize]. rewrite Hs.
    destruct (Number_toString_head x Hs) as (c & t & Hx & Hc).
    exists c, t. split; [exact Hx|].
    destruct (starts_number_dispatch c Hc) as (_ & _ & _ & H1 & H2).
    split; assumption.
  - eexists; eexists; split; [reflexivity | split; reflexivity].
  - destruct l; eexists; eexists; (split; [reflexivity | split; reflexivity]).
  - destruct ms; eexists; eexists;
      (split; [reflexivity | split; reflexivity]).
Qed.

(** ** Objects without repeated names *)

Lemma set_member_fresh (k : string) (v : jsvalue)
  (acc : list (string * jsvalue)) :
  existsb (String.eqb k) (map fst acc) = false ->
  set_member k v acc = (acc ++ [ (k, v) ])%list.
Proof.
  induction acc as [|[k' v'] acc IH]; simpl; [reflexivity|].
  intros H. apply orb_false_iff in H. destruct H as [Hk Hacc].
  rewrite String.eqb_sym, Hk, (IH Hacc). reflexivity.
Qed.

Lemma existsb_app_false (k : string) (l1 l2 : list string) :
  existsb (String.eqb k) (l1 ++ l2)%list = false <->
  existsb (String.eqb k) l1 = false /\ existsb (String.eqb k) l2 = false.
Proof. rewrite existsb_app, orb_false_iff. reflexivity. Qed.

Lemma fold_set_member (ms acc : list (string * jsvalue)) :
  distinct (map fst ms) = true ->
  (forall k, In k (map fst ms) ->
             existsb (String.eqb k) (map fst acc) = false) ->
  fold_left (fun o kv => set_member (fst kv) (snd kv) o) ms acc
  = (acc ++ ms)%list.
Proof.
  revert acc. induction ms as [|[k v] ms IH]; intros acc Hd Hfresh; simpl.
  - rewrite List.app_nil_r. reflexivity.
  - simpl in Hd. apply andb_prop in Hd. destruct Hd as [Hk Hd].
    apply negb_true_iff in Hk.
    rewrite set_member_fresh by (apply Hfresh; left; reflexivity).
    rewrite IH; [rewrite <- List.app_assoc; reflexivity | exact Hd |].
    intros k' Hin. rewrite List.map_app. apply existsb_app_false. split.
    + apply Hfresh. right. exact Hin.
    + simpl. rewrite orb_false_r.
      destruct (String.eqb_spec k' k) as [->|]; [|reflexivity].
      exfalso. 
      assert (existsb (String.eqb k) (map fst ms) = true).
      { apply existsb_exists. exists k. split; [exact Hin|].
        apply String.eqb_refl. }
      congruence.
Qed.

Lemma object_of_distinct (ms : list (string * jsvalue)) :
  distinct (map fst ms) = true -> object_of ms = JObject ms.
Proof.
  intros Hd. unfold object_of. rewrite fold_set_member; [reflexivity|exact Hd|].
  reflexivity.
Qed.

(** ** Reading back the text of a value *)

Section RoundTrip.

Variable gap : string.
Hypothesis gap_ws : all_ws gap = true.

Lemma skip_ws_serialize (indent rest : string) (v : jsvalue) :
  serializable v = true ->
  skip_ws (serialize gap indent v ++ rest) = serialize gap indent v ++ rest.
Proof.
  intros Hs. destruct (serialize_head gap indent v Hs) as (c & t & -> & Hc & _).
  apply skip_ws_head, Hc.
Qed.

Lemma skip_ws_close (stepback rest : string) (c : ascii) :
  all_ws stepback = true -> is_ws c = false ->
  skip_ws (LF ++ stepback ++ String c rest) = String c rest.
Proof.
  intros Hs Hc. change (LF ++ stepback ++ String c rest)
    with (String "010" (stepback ++ String c rest)).
  cbn [skip_ws]. change (is_ws "010") with true. cbv iota.
  rewrite (skip_ws_app stepback _ Hs). apply skip_ws_head, Hc.
Qed.

Lemma parse_elements_serialize (indent stepback rest : string)
  (l : list jsvalue) :
  Forall (reads_back gap) l ->
  forallb serializable l = true ->
  l <> [] ->
  all_ws indent = true ->
  all_ws stepback = true ->
  forall fuel : nat,
    (elements_cost l <= fuel)%nat ->
    parse_elements fuel
      (String.concat ("," ++ LF ++ indent) (map (serialize gap indent) l)
         ++ LF ++ stepback ++ "]" ++ rest)
    = Some (map normal l, rest).
Proof.
  intros Hall Hser Hne Hi Hsb.
  induction l as [|v l IH]; [contradiction|].
  inversion Hall as [|? ? Hv Hl]; subst.
  cbn [forallb] in Hser. apply andb_prop in Hser. destruct Hser as [Hsv Hsl].
  intros fuel Hfuel. unfold elements_cost in Hfuel. cbn [fold_right] in Hfuel.
  fold (elements_cost l) in Hfuel.
  destruct fuel as [|f]; [lia|].
  rewrite parse_elements_S.
  destruct l as [|v2 l'].
  - cbn [map String.concat].
    rewrite (skip_ws_serialize indent _ v Hsv).
    rewrite (Hv Hsv indent (LF ++ stepback ++ "]" ++ rest) f Hi eq_refl
               ltac:(lia)).
    change ("]" ++ rest) with (String "]" rest).
    rewrite (skip_ws_close stepback rest "]" Hsb eq_refl).
    reflexivity.
  - change (String.concat ("," ++ LF ++ indent)
              (map (serialize gap indent) (v :: v2 :: l')))
      with (serialize gap indent v ++ ("," ++ LF ++ indent)
              ++ String.concat ("," ++ LF ++ indent)
                   (map (serialize gap indent) (v2 :: l'))).
    set (body := String.concat _ (map _ (v2 :: l'))) in *.
    set (tail := body ++ LF ++ stepback ++ "]" ++ rest) in *.
    replace ((serialize gap indent v ++ ("," ++ LF ++ indent) ++ body)
               ++ LF ++ stepback ++ "]" ++ rest)
      with (serialize gap indent v ++ String "," ((LF ++ indent) ++ tail))
      by (unfold tail; rewrite !append_assoc; reflexivity).
    rewrite (skip_ws_serialize indent _ v Hsv).
    rewrite (Hv Hsv indent (String "," ((LF ++ indent) ++ tail)) f Hi eq_refl
               ltac:(lia)).
    rewrite (skip_ws_head "," _ eq_refl).
    change (Ascii.eqb "," ",") with true. cbv iota.
    rewrite parse_elements_ws by (rewrite all_ws_app, Hi; reflexivity).
    unfold tail.
    rewrite IH; [reflexivity | exact Hl | exact Hsl | discriminate | lia].
Qed.

(** The text of a member, character by character up to its value. *)
Lemma member_text (k : string) (x : string) :
  quote k ++ ":" ++ " " ++ x
  = String DQUOTE (quote_chars k ++ String DQUOTE (String ":" (String " " x))).
Proof. unfold quote. cbn [append]. rewrite append_assoc. reflexivity. Qed.

Lemma parse_member (indent rest : string) (k : string) (v : jsvalue)
  (f : nat) :
  reads_back gap v -> serializable v = true -> all_ws indent = true ->
  ends_number rest = true -> (cost v <= f)%nat ->
  parse_members (S f) (member_of gap indent (k, v) ++ rest)
  = match skip_ws rest with
    | String c' s4 =>
        if Ascii.eqb c' "," then
          match parse_members f s4 with
          | Some (ms, s5) => Some ((k, normal v) :: ms, s5)
          | None => None
          end
        else if Ascii.eqb c' "}" then Some ([ (k, normal v) ], s4)
        else None
    | EmptyString => None
    end.
Proof.
  intros Hv Hsv Hi Hr Hf. unfold member_of. cbn [fst snd].
  rewrite !append_assoc, member_text, parse_members_S.
  rewrite (skip_ws_head DQUOTE _ eq_refl).
  change (Ascii.eqb DQUOTE DQUOTE) with true. cbv iota.
  rewrite parse_chars_quote.
  rewrite (skip_ws_head ":" _ eq_refl).
  change (Ascii.eqb ":" ":") with true. cbv iota.
  change (skip_ws (String " " ?x)) with (skip_ws x).
  rewrite (skip_ws_serialize indent rest v Hsv).
  rewrite (Hv Hsv indent rest f Hi Hr Hf). reflexivity.
Qed.

Lemma parse_members_serialize (indent stepback rest : string)
  (ms : list (string * jsvalue)) :
  Forall (fun kv => reads_back gap (snd kv)) ms ->
  forallb (fun kv => serializable (snd kv)) ms = true ->
  ms <> [] ->
  all_ws indent = true ->
  all_ws stepback = true ->
  forall fuel : nat,
    (members_cost ms <= fuel)%nat ->
    parse_members fuel
      (String.concat ("," ++ LF ++ indent) (map (member_of gap indent) ms)
         ++ LF ++ stepback ++ "}" ++ rest)
    = Some (map (fun kv => (fst kv, normal (snd kv))) ms, rest).
Proof.
  intros Hall Hser Hne Hi Hsb.
  induction ms as [|[k v] ms IH]; [contradiction|].
  inversion Hall as [|? ? Hv Hl]; subst. cbn [snd] in Hv.
  cbn [forallb snd] in Hser. apply andb_prop in Hser.
  destruct Hser as [Hsv Hsl].
  intros fuel Hfuel. unfold members_cost in Hfuel.
  cbn [fold_right snd] in Hfuel.
  fold (members_cost ms) in Hfuel.
  destruct fuel as [|f]; [lia|].
  destruct ms as [|kv2 ms'].
  - cbn [map String.concat].
    rewrite (parse_member indent (LF ++ stepback ++ "}" ++ rest) k v f Hv Hsv
               Hi eq_refl ltac:(lia)).
    change ("}" ++ rest) with (String "}" rest).
    rewrite (skip_ws_close stepback rest "}" Hsb eq_refl).
    reflexivity.
  - change (String.concat ("," ++ LF ++ indent)
              (map (member_of gap indent) ((k, v) :: kv2 :: ms')))
      with (member_of gap indent (k, v) ++ ("," ++ LF ++ indent)
              ++ String.concat ("," ++ LF ++ indent)
                   (map (member_of gap indent) (kv2 :: ms'))).
    set (body := String.concat _ (map _ (kv2 :: ms'))) in *.
    set (tail := body ++ LF ++ stepback ++ "}" ++ rest) in *.
    replace ((member_of gap indent (k, v) ++ ("," ++ LF ++ indent) ++ body)
               ++ LF ++ stepback ++ "}" ++ rest)
      with (member_of gap indent (k, v) ++ String "," ((LF ++ indent) ++ tail))
      by (unfold tail; rewrite !append_assoc; reflexivity).
    rewrite (parse_member indent (String "," ((LF ++ indent) ++ tail)) k v f
               Hv Hsv Hi eq_refl ltac:(lia)).
    rewrite (skip_ws_head "," _ eq_refl).
    change (Ascii.eqb "," ",") with true. cbv iota.
    rewrite parse_members_ws by (rewrite all_ws_app, Hi; reflexivity).
    unfold tail.
    rewrite IH; [reflexivity | exact Hl | exact Hsl | discriminate | lia].
Qed.

Lemma map_fst_normal (ms : list (string * jsvalue)) :
  map fst (map (fun kv => (fst kv, normal (snd kv))) ms) = map fst ms.
Proof. rewrite List.map_map. reflexivity. Qed.

(** Every value that text can carry is read back from its text. *)
Lemma parse_serialize (v : jsvalue) : reads_back gap v.
Proof.
  induction v as [ |b|x|s|l IHl|ms IHms] using jsvalue_ind;
    intros Hs indent rest fuel Hi Hr Hf;
    (destruct fuel as [|f]; [simpl in Hf; lia|]).
  - reflexivity.
  - destruct b; reflexivity.
  - cbn [serializable] in Hs. cbn [serialize normal]. rewrite Hs.
    destruct (Number_toString_head x Hs) as (c & t & Hx & Hc).
    destruct (starts_number_dispatch c Hc) as (H1 & H2 & H3 & _ & _).
    pose proof (parse_number_toString x rest Hs Hr) as Hnum.
    rewrite Hx in *. cbn [append] in *. cbn [parse_value].
    rewrite H1, H2, H3. unfold starts_number in Hc. rewrite Hc.
    rewrite Hnum. reflexivity.
  - cbn [serialize normal]. unfold quote. cbn [append].
    rewrite append_assoc. cbn [append].
    rewrite parse_value_string, parse_chars_quote. reflexivity.
  - cbn [serializable] in Hs. cbn [cost] in Hf.
    fold (elements_cost l) in Hf.
    destruct l as [|v l']; [reflexivity|].
    set (l := v :: l') in *.
    assert (Hne : l <> []) by discriminate.
    cbn [normal].
    replace (serialize gap indent (JArray l) ++ rest)
      with (String "[" ((LF ++ indent ++ gap)
              ++ String.concat ("," ++ LF ++ indent ++ gap)
                   (map (serialize gap (indent ++ gap)) l)
              ++ LF ++ indent ++ "]" ++ rest))
      by (unfold l; cbn [serialize append]; rewrite !append_assoc;
          reflexivity).
    rewrite parse_value_array.
    rewrite skip_ws_app by (rewrite !all_ws_app, Hi, gap_ws; reflexivity).
    assert (Hi' : all_ws (indent ++ gap) = true)
      by (rewrite all_ws_app, Hi, gap_ws; reflexivity).
    pose proof (parse_elements_serialize (indent ++ gap) indent rest l IHl Hs
                  Hne Hi' Hi f ltac:(lia)) as Hel.
    assert (Hhead : exists c t,
               String.concat ("," ++ LF ++ indent ++ gap)
                 (map (serialize gap (indent ++ gap)) l)
               ++ LF ++ indent ++ "]" ++ rest = String c t
               /\ is_ws c = false /\ Ascii.eqb c "]" = false).
    { unfold l. cbn [forallb] in Hs. apply andb_prop in Hs.
      destruct Hs as [Hsv _].
      destruct (serialize_head gap (indent ++ gap) v Hsv)
        as (c & t & Hc & Hw & Hb).
      cbn [map]. destruct (map (serialize gap (indent ++ gap)) l');
        cbn [String.concat]; rewrite Hc; cbn [append];
        eexists; eexists; (split; [reflexivity | split; assumption]). }
    destruct Hhead as (c & t & Hc & Hw & Hb).
    rewrite Hc in *. rewrite (skip_ws_head c t Hw), Hb, Hel. reflexivity.
  - cbn [serializable] in Hs. apply andb_prop in Hs. destruct Hs as [Hd Hs].
    cbn [cost] in Hf. fold (members_cost ms) in Hf.
    destruct ms as [|kv ms']; [reflexivity|].
    set (ms := kv :: ms') in *.
    assert (Hne : ms <> []) by discriminate.
    cbn [normal].
    replace (serialize gap indent (JObject ms) ++ rest)
      with (String "{" ((LF ++ indent ++ gap)
              ++ String.concat ("," ++ LF ++ indent ++ gap)
                   (map (member_of gap (indent ++ gap)) ms)
              ++ LF ++ indent ++ "}" ++ rest))
      by (unfold ms; cbn [serialize append]; rewrite !append_assoc;
          reflexivity).
    rewrite parse_value_object.
    rewrite skip_ws_app by (rewrite !all_ws_app, Hi, gap_ws; reflexivity).
    assert (Hi' : all_ws (indent ++ gap) = true)
      by (rewrite all_ws_app, Hi, gap_ws; reflexivity).
    pose proof (parse_members_serialize (indent ++ gap) indent rest ms IHms Hs
                  Hne Hi' Hi f ltac:(lia)) as Hel.
    assert (Hhead : exists t,
               String.concat ("," ++ LF ++ indent ++ gap)
                 (map (member_of gap (indent ++ gap)) ms)
               ++ LF ++ indent ++ "}" ++ rest = String DQUOTE t).
    { unfold ms. cbn [map].
      destruct (map (member_of gap (indent ++ gap)) ms');
        cbn [String.concat]; unfold member_of, quote; cbn [append];
        eexists; reflexivity. }
    destruct Hhead as (t & Hc).
    rewrite Hc in *. rewrite (skip_ws_head DQUOTE t eq_refl).
    change (Ascii.eqb DQUOTE "}") with false. cbv iota.
    rewrite Hel, object_of_distinct by (rewrite map_fst_normal; exact Hd).
    reflexivity.
Qed.

End RoundTrip.

(** ** The text is long enough to be the parser's fuel *)

Section Fuel.

Variable gap : string.

Lemma elements_cost_le (sep indent : string) (l : list jsvalue) :
  Forall (fits gap) l ->
  (2 <= String.length sep)%nat ->
  (elements_cost l
   <= String.length (String.concat sep (map (serialize gap indent) l)) + 2)%nat.
Proof.
  intros Hall Hsep. induction l as [|v l IH]; [simpl; lia|].
  inversion Hall as [|? ? Hv Hl]; subst. specialize (IH Hl).
  specialize (Hv indent).
  unfold elements_cost in *. cbn [fold_right].
  destruct l as [|v2 l'].
  - cbn [map String.concat fold_right]. lia.
  - change (String.concat sep (map (serialize gap indent) (v :: v2 :: l')))
      with (serialize gap indent v ++ sep
              ++ String.concat sep (map (serialize gap indent) (v2 :: l'))).
    rewrite !length_append. lia.
Qed.

Lemma members_cost_le (sep indent : string) (ms : list (string * jsvalue)) :
  Forall (fun kv => fits gap (snd kv)) ms ->
  (2 <= String.length sep)%nat ->
  (members_cost ms
   <= String.length (String.concat sep (map (member_of gap indent) ms))
      + 2)%nat.
Proof.
  intros Hall Hsep. induction ms as [|[k v] ms IH]; [simpl; lia|].
  inversion Hall as [|? ? Hv Hl]; subst. specialize (IH Hl).
  specialize (Hv indent). cbn [snd] in Hv.
  assert (Hm : (String.length (serialize gap indent v)
                <= String.length (member_of gap indent (k, v)))%nat).
  { unfold member_of. rewrite !length_append. cbn [snd]. lia. }
  unfold members_cost in *. cbn [fold_right snd].
  destruct ms as [|kv2 ms'].
  - cbn [map String.concat fold_right]. lia.
  - change (String.concat sep
              (map (member_of gap indent) ((k, v) :: kv2 :: ms')))
      with (member_of gap indent (k, v) ++ sep
              ++ String.concat sep (map (member_of gap indent) (kv2 :: ms'))).
    rewrite !length_append. lia.
Qed.

Lemma cost_le_length (v : jsvalue) : fits gap v.
Proof.
  induction v as [ |b|x|s|l IHl|ms IHms] using jsvalue_ind; intros indent;
    try (simpl; lia).
  - cbn [cost]. fold (elements_cost l).
    destruct l as [|v l']; [simpl; lia|].
    set (l := v :: l') in *.
    pose proof (elements_cost_le ("," ++ LF ++ indent ++ gap) (indent ++ gap)
                  l IHl ltac:(simpl; lia)) as H.
    replace (serialize gap indent (JArray l))
      with ("[" ++ LF ++ (indent ++ gap)
              ++ String.concat ("," ++ LF ++ indent ++ gap)
                   (map (serialize gap (indent ++ gap)) l)
              ++ LF ++ indent ++ "]") by reflexivity.
    rewrite !length_append. simpl String.length at 1 2. lia.
  - cbn [cost]. fold (members_cost ms).
    destruct ms as [|kv ms']; [simpl; lia|].
    set (ms := kv :: ms') in *.
    pose proof (members_cost_le ("," ++ LF ++ indent ++ gap) (indent ++ gap)
                  ms IHms ltac:(simpl; lia)) as H.
    replace (serialize gap indent (JObject ms))
      with ("{" ++ LF ++ (indent ++ gap)
              ++ String.concat ("," ++ LF ++ indent ++ gap)
                   (map (member_of gap (indent ++ gap)) ms)
              ++ LF ++ indent ++ "}") by reflexivity.
    rewrite !length_append. simpl String.length at 1 2. lia.
Qed.

End Fuel.

(** [JSON.parse] undoes [JSON.stringify] up to the sign of zero. *)
Lemma parse_stringify2 (v : jsvalue) :
  serializable v = true -> parse (stringify2 v) = Some (normal v).
Proof.
  intros Hs. unfold parse, stringify2.
  pose proof (parse_serialize "  " eq_refl v Hs "" ""
                (S (String.length (serialize "  " "" v))) eq_refl eq_refl
                (cost_le_length "  " v "")) as H.
  pose proof (skip_ws_serialize "  " "" "" v Hs) as Hw.
  rewrite append_nil_r in H, Hw. rewrite Hw, H. reflexivity.
Qed.

(** ** Deep equality *)

Lemma eqb_positive_zero (x : number) :
  finite x = true -> PrimFloat.eqb (positive_zero x) x = true.
Proof.
  unfold finite, positive_zero. rewrite FloatAxioms.eqb_spec.
  destruct (Prim2SF x) as [sg|sg| |sg m e] eqn:E; try discriminate; intros _.
  - reflexivity.
  - rewrite E. unfold SFeqb, SFcompare.
    rewrite Z.compare_refl.
    change (Pos.compare_cont Eq m m) with (Pos.compare m m).
    rewrite Pos.compare_refl. destruct sg; reflexivity.
Qed.

Lemma member_distinct (k : string) (v : jsvalue)
  (ms : list (string * jsvalue)) :
  distinct (map fst ms) = true -> In (k, v) ms -> member k ms = Some v.
Proof.
  induction ms as [|[k' v'] ms IH]; [contradiction|].
  cbn [map fst distinct member]. intros Hd [Hin|Hin].
  - inversion Hin; subst. rewrite String.eqb_refl. reflexivity.
  - apply andb_prop in Hd. destruct Hd as [Hk Hd].
    apply negb_true_iff in Hk.
    destruct (String.eqb_spec k' k) as [->|Hne]; [|apply IH; assumption].
    exfalso.
    assert (existsb (String.eqb k) (map fst ms) = true).
    { apply existsb_exists. exists k. split; [|apply String.eqb_refl].
      apply in_map_iff. exists (k, v). split; [reflexivity | exact Hin]. }
    congruence.
Qed.

Lemma deep_equal_normal (v : jsvalue) :
  serializable v = true -> deep_equal (normal v) v = true.
Proof.
  induction v as [ |b|x|s|l IHl|ms IHms] using jsvalue_ind; intros Hs.
  - reflexivity.
  - destruct b; reflexivity.
  - apply eqb_positive_zero, Hs.
  - cbn [normal deep_equal]. apply String.eqb_refl.
  - cbn [serializable] in Hs. cbn [normal deep_equal].
    induction l as [|v l IH]; [reflexivity|].
    inversion IHl as [|? ? Hv Hl]; subst.
    cbn [forallb] in Hs. apply andb_prop in Hs. destruct Hs as [Hsv Hsl].
    cbn [map]. rewrite (Hv Hsv). cbn [andb]. apply IH; assumption.
  - cbn [serializable] in Hs. apply andb_prop in Hs. destruct Hs as [Hd Hs].
    cbn [normal deep_equal].
    rewrite List.length_map, Nat.eqb_refl. cbn [andb].
    assert (Hall : forall kv, In kv ms ->
                     member (fst kv) ms = Some (snd kv)
                     /\ deep_equal (normal (snd kv)) (snd kv) = true).
    { intros [k v] Hin. cbn [fst snd]. split.
      - apply member_distinct; assumption.
      - rewrite Forall_forall in IHms. apply (IHms (k, v) Hin).
        rewrite forallb_forall in Hs. apply (Hs (k, v) Hin). }
    clear Hd Hs IHms. revert Hall. generalize ms at 2 3 as whole.
    intros whole.
    induction ms as [|kv ms' IH]; intros Hall; [reflexivity|].
    cbn [map fst snd].
    destruct (Hall kv (or_introl eq_refl)) as [Hm He].
    rewrite Hm, He. cbn [andb]. apply IH.
    intros kv' Hin. apply Hall. right. exact Hin.
Qed.

(** ** The JSON report *)

Lemma forallb_map_ext {A B : Type} (p : B -> bool) (q : A -> bool)
  (f : A -> B) (l : list A) :
  (forall x, p (f x) = q x) -> forallb p (map f l) = forallb q l.
Proof.
  intros H. induction l as [|x l IH]; simpl; [reflexivity|].
  rewrite H, IH. reflexivity.
Qed.

Lemma map_fst_pairs {A B C : Type} (g : B -> C) (l : list (A * B)) :
  map fst (map (fun kv => (fst kv, g (snd kv))) l) = map fst l.
Proof.
  induction l as [|kv l IH]; simpl; [reflexivity | now rewrite IH].
Qed.

Lemma serializable_Score (s : Score) :
  serializable (value_of_Score s) = finite_score s.
Proof. destruct s; reflexivity. Qed.

Lemma serializable_AuditResult (a : AuditResult) :
  serializable (value_of_AuditResult a) = finite_score (score a).
Proof.
  unfold value_of_AuditResult.
  destruct (extendedInfo a) as [ei|]; cbn; rewrite serializable_Score;
    destruct (finite_score (score a)); reflexivity.
Qed.

Lemma serializable_SubItem (s : SubItem) :
  serializable (value_of_SubItem s) = finite_subitem s.
Proof.
  destruct s as [a|key]; [apply serializable_AuditResult | reflexivity].
Qed.

Lemma serializable_AggregationResultItem (i : AggregationResultItem) :
  serializable (value_of_AggregationResultItem i) = finite_item i.
Proof.
  unfold value_of_AggregationResultItem, finite_item. cbn.
  rewrite (forallb_map_ext serializable finite_subitem value_of_SubItem)
    by apply serializable_SubItem.
  rewrite !andb_true_r. reflexivity.
Qed.

Lemma serializable_Aggregation (a : Aggregation) :
  serializable (value_of_Aggregation a) = finite_aggregation a.
Proof.
  unfold value_of_Aggregation, finite_aggregation. cbn.
  rewrite (forallb_map_ext serializable finite_item
             value_of_AggregationResultItem)
    by apply serializable_AggregationResultItem.
  rewrite !andb_true_r. reflexivity.
Qed.

Lemma serializable_Results (r : Results) :
  finite_numbers r = true ->
  distinct (map fst (audits r)) = true ->
  serializable (value_of_Results r) = true.
Proof.
  unfold finite_numbers, value_of_Results. intros Hfin Hkeys.
  apply andb_prop in Hfin. destruct Hfin as [Haggs Haudits]. cbn.
  rewrite (forallb_map_ext serializable finite_aggregation value_of_Aggregation)
    by apply serializable_Aggregation.
  rewrite Haggs, map_fst_pairs, Hkeys.
  rewrite (forallb_map_ext (fun kv => serializable (snd kv))
             (fun kv => finite_score (score (snd kv)))
             (fun kv => (fst kv, value_of_AuditResult (snd kv))))
    by (intros kv; apply serializable_AuditResult).
  rewrite Haudits. reflexivity.
Qed.

(** C6, as the code has it.  For every [Results] tree whose numbers are
    finite (and whose [audits] object has, as every object, distinct
    property names), the json mode returns the text of
    [JSON.stringify(results, null, 2)], and [JSON.parse] of that text
    yields a value deep-equal to the tree. *)
Theorem json_round_trip gh fp (r : Results) :
  finite_numbers r = true ->
  distinct (map fst (audits r)) = true ->
  exists (text : string) (v : jsvalue),
    createOutput gh fp r (OutputMode_get "json") = Normal text
    /\ JSON.parse text = Some v
    /\ deep_equal v (value_of_Results r) = true.
Proof.
  intros Hfin Hkeys.
  pose proof (serializable_Results r Hfin Hkeys) as Hs.
  exists (stringify2 (value_of_Results r)), (normal (value_of_Results r)).
  split; [reflexivity|].
  split; [apply parse_stringify2, Hs | apply deep_equal_normal, Hs].
Qed.

Lemma json_round_trip_witness :
  finite_numbers minimal_results = true
  /\ distinct (map fst (audits minimal_results)) = true
  /\ exists (text : string) (v : jsvalue),
       createOutput no_report no_formatter minimal_results
         (OutputMode_get "json") = Normal text
       /\ JSON.parse text = Some v
       /\ deep_equal v (value_of_Results minimal_results) = true.
Proof.
  split; [reflexivity|]. split; [reflexivity|].
  exact (json_round_trip no_report no_formatter minimal_results
           eq_refl eq_refl).
Defined.

(** C6, as stated, fails: [JSON.stringify] writes an infinite number as
    [null], so the text of a tree with an infinite score parses to a value
    that is not deep-equal to the tree. *)
Lemma json_loses_infinity :
  exists (text : string) (v : jsvalue),
    createOutput no_report no_formatter infinite_results
      (OutputMode_get "json") = Normal text
    /\ JSON.parse text = Some v
    /\ deep_equal v (value_of_Results infinite_results) = false.
Proof.
  exists (stringify2 (value_of_Results infinite_results)).
  let parsed :=
    eval vm_compute in
      (JSON.parse (stringify2 (value_of_Results infinite_results))) in
  match parsed with
  | Some ?v => exists v
  end.
  split; [reflexivity|].
  split; vm_compute; reflexivity.
Qed.

(** * Further properties *)

(** ** Loop bodies that append *)

Lemma forEach_ext_in {A : Type} (body1 body2 : string -> A -> completion string)
  (l : list A) (output : string) :
  (forall out a, In a l -> body1 out a = body2 out a) ->
  forEach body1 l output = forEach body2 l output.
Proof.
  revert output. induction l as [|a l IH]; intros output Hext; simpl.
  - reflexivity.
  - rewrite (Hext output a (or_introl eq_refl)).
    destruct (body2 output a); simpl; [|reflexivity].
    apply IH. intros out x Hin. apply Hext. right. exact Hin.
Qed.

Lemma forEach_appends {A : Type} (body : string -> A -> completion string) :
  appends body -> appends (fun output l => forEach body l output).
Proof.
  intros Hb output l. revert output.
  induction l as [|a l IH]; intros output; simpl.
  - rewrite append_nil_r. reflexivity.
  - rewrite (Hb output a).
    destruct (body "" a) as [text|e]; simpl; [|reflexivity].
    rewrite (IH (output ++ text)), (IH text).
    destruct (forEach body l "") as [text'|e]; simpl; [|reflexivity].
    rewrite append_assoc. reflexivity.
Qed.

Ltac flatten :=
  repeat (progress cbn [append bind] || rewrite append_assoc).

Lemma render_subitem_appends fp (r : Results) : appends (render_subitem fp r).
Proof.
  intros output subitem. unfold render_subitem, foreign_line.
  destruct (match subitem with
            | Inline a => Own a
            | Reference key => get_audit (audits r) key
            end) as [a| |]; [|flatten; reflexivity|reflexivity].
  destruct (truthy (displayValue a)), (truthy (debugString a));
    destruct (extendedInfo a) as [ei|];
    try destruct (truthy (value ei));
    try destruct (fp (formatter ei) (value ei));
    flatten; reflexivity.
Qed.

Lemma render_item_appends fp (r : Results) : appends (render_item fp r).
Proof.
  intros output item. unfold render_item.
  rewrite (forEach_appends _ (render_subitem_appends fp r) _ (subItems item)).
  rewrite (forEach_appends _ (render_subitem_appends fp r)
             (if truthy (name item) then "" ++ _ else "") (subItems item)).
  destruct (forEach (render_subitem fp r) (subItems item) "") as [text|e];
    [|reflexivity].
  destruct (truthy (name item)); flatten; reflexivity.
Qed.

Lemma render_aggregation_appends fp (r : Results) :
  appends (render_aggregation fp r).
Proof.
  intros output aggregation. unfold render_aggregation.
  rewrite (forEach_appends _ (render_item_appends fp r) _
             (aggregation_score aggregation)).
  rewrite (forEach_appends _ (render_item_appends fp r) ("" ++ _)
             (aggregation_score aggregation)).
  destruct (forEach (render_item fp r) (aggregation_score aggregation) "")
    as [text|e]; [|reflexivity].
  flatten. reflexivity.
Qed.

(** ** The output path *)

(** X1.  The checked path is never empty, and checking it again changes
    nothing and logs nothing.  A non-empty path is returned as it is,
    without a log entry; the empty path becomes [stdout] and is reported by
    one warning. *)
Theorem checkOutputPath_settles (path : string) (w : World) :
  let checked := checkOutputPath path w in
  truthy (fst checked) = true
  /\ checkOutputPath (fst checked) (snd checked) = checked
  /\ if truthy path
     then checked = (path, w)
     else fst checked = "stdout"
          /\ log (snd checked)
             = (log w
                ++ [ {| level := warn;
                        component := "Printer";
                        message := "No output path set; using stdout" |} ])%list
          /\ stdout (snd checked) = stdout w
          /\ files (snd checked) = files w.
Proof.
  unfold checkOutputPath. destruct path as [|c path]; simpl.
  - repeat split.
  - repeat split.
Qed.

(** ** The enumeration of modes *)

(** X2.  The valid output options are exactly the keys the enumeration maps
    to one of its numbers, and for each of them the name of that number is
    the key again. *)
Theorem valid_options_are_the_members (mode : Mode) :
  (In mode GetValidOutputOptions
   <-> exists m : OutputMode, OutputMode_get mode = Member m)
  /\ match OutputMode_get mode with
     | Member m =>
         OutputMode_label (OutputMode_get mode) = mode
         /\ OutputMode_get (decimal (OutputMode_number m)) = NameOf m
     | _ => ~ In mode GetValidOutputOptions
     end.
Proof.
  unfold OutputMode_get.
  destruct (String.eqb_spec mode "pretty") as [->|H1];
    [split; [split; [eexists; reflexivity | simpl; auto]
            | split; reflexivity]|].
  destruct (String.eqb_spec mode "json") as [->|H2];
    [split; [split; [eexists; reflexivity | simpl; auto]
            | split; reflexivity]|].
  destruct (String.eqb_spec mode "html") as [->|H3];
    [split; [split; [eexists; reflexivity | simpl; auto]
            | split; reflexivity]|].
  assert (Hnot : ~ In mode GetValidOutputOptions).
  { intros [H|[H|[H|[]]]]; symmetry in H; contradiction. }
  repeat match goal with
         | |- context [if ?b then _ else _] => destruct b
         end;
    (split; [split; [intros H; contradiction | intros [m H]; discriminate H]
            | exact Hnot]).
Qed.

(** ** The shape of the pretty report *)

Lemma createOutput_pretty gh fp (r : Results) :
  createOutput gh fp r (Member pretty)
  = forEach (render_aggregation fp r) (aggregations r) (pretty_header r).
Proof. reflexivity. Qed.

(** X3.  The pretty report is its header followed by the text of the
    aggregations, and that text does not depend on the header; with no
    aggregation the report is the header alone. *)
Theorem pretty_report_is_header_and_body gh fp (r : Results) :
  createOutput gh fp r (Member pretty)
  = (body <- forEach (render_aggregation fp r) (aggregations r) "" ;;
     Normal (pretty_header r ++ body))
  /\ forall u v au,
       createOutput gh fp
         {| url := u; aggregations := []; audits := au;
            lighthouseVersion := v |} (Member pretty)
       = Normal (LF ++ LF ++ bold ++ "Lighthouse (" ++ v ++ ") results:"
                   ++ reset ++ " " ++ u ++ LF ++ LF).
Proof.
  split; [|reflexivity].
  rewrite createOutput_pretty.
  apply (forEach_appends _ (render_aggregation_appends fp r)).
Qed.

(** X4.  Aggregations are rendered in their order, each after the text of
    those before it: the report of the aggregations [aggs1 ++ aggs2] is the
    report of [aggs1] followed by the text of [aggs2], and nothing is
    produced if either part throws. *)
Theorem pretty_report_extends gh fp (u v : string)
  (au : list (string * AuditResult)) (aggs1 aggs2 : list Aggregation) :
  let tree := fun aggs =>
    {| url := u; aggregations := aggs; audits := au;
       lighthouseVersion := v |} in
  createOutput gh fp (tree (aggs1 ++ aggs2)%list) (Member pretty)
  = (report1 <- createOutput gh fp (tree aggs1) (Member pretty) ;;
     text2 <- forEach (render_aggregation fp (tree aggs2)) aggs2 "" ;;
     Normal (report1 ++ text2)).
Proof.
  intros tree. rewrite !createOutput_pretty.
  change (aggregations (tree (aggs1 ++ aggs2)%list)) with (aggs1 ++ aggs2)%list.
  change (aggregations (tree aggs1)) with aggs1.
  change (pretty_header (tree (aggs1 ++ aggs2)%list))
    with (pretty_header (tree aggs1)).
  rewrite forEach_app.
  rewrite (forEach_ext (render_aggregation fp (tree (aggs1 ++ aggs2)%list))
             (render_aggregation fp (tree aggs1)))
    by (intros; apply render_aggregation_audits; reflexivity).
  destruct (forEach (render_aggregation fp (tree aggs1)) aggs1 _)
    as [report1|e]; [|reflexivity].
  cbn [bind].
  rewrite (forEach_ext (render_aggregation fp (tree (aggs1 ++ aggs2)%list))
             (render_aggregation fp (tree aggs2)))
    by (intros; apply render_aggregation_audits; reflexivity).
  apply (forEach_appends _ (render_aggregation_appends fp (tree aggs2))).
Qed.


(** ** What the pretty report depends on *)

Lemma forallb_In {A : Type} (p : A -> bool) (l : list A) (a : A) :
  forallb p l = true -> In a l -> p a = true.
Proof. intros H Hin. rewrite forallb_forall in H. apply H, Hin. Qed.

Lemma plain_own (au : list (string * AuditResult)) (key : string)
  (a : AuditResult) :
  forallb (fun kv => plain_audit (snd kv)) au = true ->
  own_property au key = Some a -> plain_audit a = true.
Proof.
  induction au as [|[k a'] au IH]; simpl; [discriminate|].
  intros H. apply andb_prop in H. destruct H as [Ha Hau].
  destruct (String.eqb k key); [intros E; inversion E; subst; exact Ha|].
  apply IH, Hau.
Qed.

Lemma render_plain_audit fp1 fp2 (r : Results) (output : string)
  (a : AuditResult) :
  plain_audit a = true ->
  render_subitem fp1 r output (Inline a)
  = render_subitem fp2 r output (Inline a).
Proof.
  unfold plain_audit, render_subitem. intros H.
  destruct (extendedInfo a) as [ei|]; [|reflexivity].
  apply negb_true_iff in H. rewrite H. reflexivity.
Qed.

(** X6.  The formatter registry is consulted only for an audit result whose
    [extendedInfo] has a non-empty [value]: a tree without such an audit
    result, inline or in [audits], has the same pretty report whatever the
    registry is. *)
Theorem plain_report_ignores_formatters gh fp1 fp2 (r : Results) :
  plain_results r = true ->
  createOutput gh fp1 r (Member pretty) = createOutput gh fp2 r (Member pretty).
Proof.
  unfold plain_results. intros H. apply andb_prop in H.
  destruct H as [Haggs Haudits].
  rewrite !createOutput_pretty.
  apply forEach_ext_in. intros out aggregation Hagg.
  pose proof (forallb_In _ _ _ Haggs Hagg) as Hitems. cbv beta in Hitems.
  unfold render_aggregation. apply forEach_ext_in. intros out' item Hitem.
  pose proof (forallb_In _ _ _ Hitems Hitem) as Hsubs. cbv beta in Hsubs.
  unfold render_item.
  rewrite (forEach_ext_in (render_subitem fp1 r) (render_subitem fp2 r));
    [reflexivity|].
  intros out'' subitem Hsub.
  pose proof (forallb_In _ _ _ Hsubs Hsub) as Hplain.
  destruct subitem as [a|key].
  - apply render_plain_audit, Hplain.
  - unfold render_subitem, get_audit.
    destruct (own_property (audits r) key) as [a|] eqn:Eown;
      [|destruct (inherited key); reflexivity].
    apply (render_plain_audit fp1 fp2 r out'' a).
    apply (plain_own (audits r) key a Haudits Eown).
Qed.

Lemma plain_report_ignores_formatters_witness :
  plain_results minimal_results = true
  /\ createOutput no_report no_formatter minimal_results (Member pretty)
     = createOutput no_report echo_formatter minimal_results (Member pretty).
Proof.
  split; [reflexivity|].
  exact (plain_report_ignores_formatters no_report no_formatter echo_formatter
           minimal_results eq_refl).
Defined.



(** ** Whether the pretty report is composed *)

Lemma forEach_total {A : Type} (body : string -> A -> completion string)
  (P : A -> bool) (l : list A) :
  (forall out a, P a = true -> exists out', body out a = Normal out') ->
  forallb P l = true ->
  forall out, exists out', forEach body l out = Normal out'.
Proof.
  intros Hbody. induction l as [|a l IH]; intros Hl out.
  - exists out. reflexivity.
  - cbn [forallb] in Hl. apply andb_prop in Hl. destruct Hl as [Ha Hl].
    destruct (Hbody out a Ha) as [out' E]. cbn [forEach]. rewrite E.
    apply (IH Hl).
Qed.

Lemma forEach_throws {A : Type} (body : string -> A -> completion string)
  (P : A -> bool) (l : list A) :
  (forall out a, P a = false -> exists e, body out a = Throw e) ->
  forallb P l = false ->
  forall out, exists e, forEach body l out = Throw e.
Proof.
  intros Hbody. induction l as [|a l IH]; intros Hl out; [discriminate|].
  cbn [forallb] in Hl. cbn [forEach].
  destruct (body out a) as [out'|e] eqn:E; [|exists e; reflexivity].
  destruct (P a) eqn:Ha.
  - apply (IH Hl).
  - destruct (Hbody out a Ha) as [e E']. congruence.
Qed.

Lemma forEach_throws_first {A : Type}
  (body : string -> A -> completion string) (P : A -> bool) (E : exn)
  (l : list A) :
  (forall out a, P a = true -> exists out', body out a = Normal out') ->
  (forall out a, P a = false -> body out a = Throw E) ->
  forallb P l = false ->
  forall out, forEach body l out = Throw E.
Proof.
  intros Hgood Hbad. induction l as [|a l IH]; intros Hl out; [discriminate|].
  cbn [forallb] in Hl. cbn [forEach].
  destruct (P a) eqn:Ha.
  - destruct (Hgood out a Ha) as [out' E']. rewrite E'. apply (IH Hl).
  - rewrite (Hbad out a Ha). reflexivity.
Qed.

Lemma forallb_false_In {A : Type} (P : A -> bool) (l : list A) (a : A) :
  In a l -> P a = false -> forallb P l = false.
Proof.
  intros Hin Ha. destruct (forallb P l) eqn:E; [|reflexivity].
  rewrite forallb_forall in E. rewrite (E a Hin) in Ha. discriminate.
Qed.

Section Resolution.

Variable fp : string -> string -> completion string.
Variable r : Results.

Lemma render_subitem_unresolved (out : string) (s : SubItem) :
  resolved_subitem (audits r) s = false ->
  render_subitem fp r out s = Throw score_of_undefined.
Proof.
  destruct s as [a|key]; [discriminate|].
  unfold resolved_subitem, render_subitem.
  destruct (get_audit (audits r) key); try discriminate. reflexivity.
Qed.

Lemma render_item_unresolved (out : string) (item : AggregationResultItem) :
  resolved_item (audits r) item = false ->
  exists e, render_item fp r out item = Throw e.
Proof.
  intros H. unfold render_item.
  destruct (forEach_throws (render_subitem fp r) (resolved_subitem (audits r))
              (subItems item)
              (fun o s Hs => ex_intro _ _ (render_subitem_unresolved o s Hs))
              H (if truthy (name item)
                 then out ++ bold ++ name item ++ reset ++ ": "
                        ++ (if scored item
                            then formatAggregationResultItem
                                   (ScoreString
                                      (toFixed0 (overall item * 100)%float))
                                   (Some "%")
                            else "")
                        ++ LF
                 else out)) as [e E].
  exists e. cbv zeta. rewrite E. reflexivity.
Qed.

Lemma render_aggregation_unresolved (out : string) (aggregation : Aggregation) :
  resolved_aggregation (audits r) aggregation = false ->
  exists e, render_aggregation fp r out aggregation = Throw e.
Proof.
  intros H. unfold render_aggregation.
  apply (forEach_throws (render_item fp r) (resolved_item (audits r))
           (aggregation_score aggregation) render_item_unresolved H).
Qed.

Hypothesis formats : forall n v : string, exists text, fp n v = Normal text.

Lemma render_subitem_resolved (out : string) (s : SubItem) :
  resolved_subitem (audits r) s = true ->
  exists out', render_subitem fp r out s = Normal out'.
Proof.
  assert (Hown : forall a,
             exists out',
               render_subitem fp r out (Inline a) = Normal out').
  { intros a. unfold render_subitem.
    destruct (extendedInfo a) as [ei|]; [|eexists; reflexivity].
    destruct (truthy (value ei)); [|eexists; reflexivity].
    destruct (formats (formatter ei) (value ei)) as [text ->].
    eexists; reflexivity. }
  destruct s as [a|key]; [intros _; apply Hown|].
  unfold resolved_subitem. specialize Hown. unfold render_subitem in *.
  destruct (get_audit (audits r) key) as [a| |]; try discriminate; intros _.
  - apply Hown.
  - eexists; reflexivity.
Qed.

Lemma render_item_resolved (out : string) (item : AggregationResultItem) :
  resolved_item (audits r) item = true ->
  exists out', render_item fp r out item = Normal out'.
Proof.
  intros H. unfold render_item. cbv zeta.
  match goal with
  | |- context [forEach _ _ ?o] =>
      destruct (forEach_total (render_subitem fp r)
                  (resolved_subitem (audits r)) (subItems item)
                  render_subitem_resolved H o) as [out' ->]
  end.
  eexists; reflexivity.
Qed.

Lemma render_item_unresolved_first (out : string)
  (item : AggregationResultItem) :
  resolved_item (audits r) item = false ->
  render_item fp r out item = Throw score_of_undefined.
Proof.
  intros H. unfold render_item. cbv zeta.
  rewrite (forEach_throws_first (render_subitem fp r)
             (resolved_subitem (audits r)) score_of_undefined (subItems item)
             render_subitem_resolved render_subitem_unresolved H).
  reflexivity.
Qed.

Lemma render_aggregation_resolved (out : string) (aggregation : Aggregation) :
  resolved_aggregation (audits r) aggregation = true ->
  exists out', render_aggregation fp r out aggregation = Normal out'.
Proof.
  intros H. unfold render_aggregation.
  apply (forEach_total (render_item fp r) (resolved_item (audits r))
           (aggregation_score aggregation) render_item_resolved H).
Qed.

Lemma render_aggregation_unresolved_first (out : string)
  (aggregation : Aggregation) :
  resolved_aggregation (audits r) aggregation = false ->
  render_aggregation fp r out aggregation = Throw score_of_undefined.
Proof.
  intros H. unfold render_aggregation.
  apply (forEach_throws_first (render_item fp r) (resolved_item (audits r))
           score_of_undefined (aggregation_score aggregation)
           render_item_resolved render_item_unresolved_first H).
Qed.

End Resolution.

(** X8.  With formatters that return, the pretty report is composed exactly
    when every key among [subItems] finds an entry in [audits] or a name
    inherited from [Object.prototype]; otherwise [createOutput] throws the
    [TypeError] of reading [score] from [undefined], and no other
    exception. *)
Theorem pretty_report_is_composed_iff_resolved gh fp (r : Results) :
  (forall n v : string, exists text, fp n v = Normal text) ->
  if resolved r
  then exists output, createOutput gh fp r (Member pretty) = Normal output
  else createOutput gh fp r (Member pretty) = Throw score_of_undefined.
Proof.
  intros formats. rewrite createOutput_pretty.
  destruct (resolved r) eqn:H.
  - apply (forEach_total (render_aggregation fp r)
             (resolved_aggregation (audits r)) (aggregations r)
             (render_aggregation_resolved fp r formats) H).
  - apply (forEach_throws_first (render_aggregation fp r)
             (resolved_aggregation (audits r)) score_of_undefined
             (aggregations r)
             (render_aggregation_resolved fp r formats)
             (render_aggregation_unresolved_first fp r formats) H).
Qed.

Lemma pretty_report_is_composed_iff_resolved_witness :
  (exists output,
      createOutput no_report echo_formatter (referencing_results "a1")
        (Member pretty) = Normal output)
  /\ createOutput no_report echo_formatter (referencing_results "missing")
       (Member pretty) = Throw score_of_undefined.
Proof.
  split.
  - exact (pretty_report_is_composed_iff_resolved no_report echo_formatter
             (referencing_results "a1")
             (fun _ v => ex_intro _ v eq_refl)).
  - exact (pretty_report_is_composed_iff_resolved no_report echo_formatter
             (referencing_results "missing")
             (fun _ v => ex_intro _ v eq_refl)).
Defined.

(** X9.  Whatever the formatters do, one key among [subItems] that is
    neither an entry of [audits] nor an inherited name is enough for
    [createOutput] to throw: no pretty report is returned, however much of
    it was composed before the key was reached. *)
Theorem unresolved_key_prevents_report gh fp (r : Results)
  (aggregation : Aggregation) (item : AggregationResultItem) (key : string) :
  In aggregation (aggregations r) ->
  In item (aggregation_score aggregation) ->
  In (Reference key) (subItems item) ->
  get_audit (audits r) key = Missing ->
  exists e, createOutput gh fp r (Member pretty) = Throw e.
Proof.
  intros Hagg Hitem Hsub Hmiss. rewrite createOutput_pretty.
  apply (forEach_throws (render_aggregation fp r)
           (resolved_aggregation (audits r)) (aggregations r)
           (render_aggregation_unresolved fp r)).
  apply (forallb_false_In _ _ aggregation Hagg).
  apply (forallb_false_In _ _ item Hitem).
  apply (forallb_false_In _ _ (Reference key) Hsub).
  unfold resolved_subitem. rewrite Hmiss. reflexivity.
Qed.

Lemma unresolved_key_prevents_report_witness :
  exists e,
    createOutput no_report no_formatter (referencing_results "missing")
      (Member pretty) = Throw e.
Proof.
  apply (unresolved_key_prevents_report no_report no_formatter
           (referencing_results "missing")
           {| aggregation_name := "Cat";
              aggregation_score :=
                [ {| overall := 0x1.999999999999ap-1%float;
                     name := "Item";
                     scored := true;
                     subItems := [ Reference "missing" ] |} ] |}
           {| overall := 0x1.999999999999ap-1%float;
              name := "Item";
              scored := true;
              subItems := [ Reference "missing" ] |}
           "missing");
    first [ left; reflexivity | reflexivity ].
Defined.

(** ** Writing *)

(** X10.  When composition throws, [write] rejects with the exception and
    delivers nothing: standard output and the files are as before, no file
    is reported written, and the only trace is the warning about an empty
    path, which is logged before the report is composed. *)
Theorem write_rejects_when_composition_throws gh fp (results : Results)
  (mode : Mode) (path : string) (w : World) (e : exn) :
  createOutput gh fp results (OutputMode_get mode) = Throw e ->
  let after := write gh fp results mode path w in
  fst after = Rejected e
  /\ snd after = snd (checkOutputPath path w)
  /\ stdout (snd after) = stdout w
  /\ files (snd after) = files w.
Proof.
  intros Hthrow. cbv zeta. unfold write, checkOutputPath.
  destruct (truthy path); cbn [negb]; rewrite Hthrow; repeat split.
Qed.

Lemma write_rejects_when_composition_throws_witness :
  fst (write no_report no_formatter minimal_results "html" "" empty_world)
  = Rejected (Error "no report generator")
  /\ log (snd (write no_report no_formatter minimal_results "html" ""
                 empty_world))
     = [ {| level := warn; component := "Printer";
            message := "No output path set; using stdout" |} ].
Proof.
  destruct (write_rejects_when_composition_throws no_report no_formatter
              minimal_results "html" "" empty_world
              (Error "no report generator") eq_refl) as (H1 & H2 & _).
  split; [exact H1|]. rewrite H2. reflexivity.
Defined.



(** ** The json report at its destination *)

Lemma parse_stringify2_line (v : jsvalue) :
  serializable v = true -> JSON.parse (stringify2 v ++ LF) = Some (normal v).
Proof.
  intros Hs. unfold JSON.parse, stringify2.
  pose proof (parse_serialize "  " eq_refl v Hs "" LF
                (S (String.length (serialize "  " "" v ++ LF)))
                eq_refl eq_refl) as H.
  pose proof (skip_ws_serialize "  " "" LF v Hs) as Hw.
  rewrite Hw, H; [reflexivity|].
  pose proof (cost_le_length "  " v "") as Hc. unfold fits in Hc.
  rewrite length_append. lia.
Qed.

(** X12.  The json report written to a file the file system accepts is
    read back from the file: for a tree with finite numbers and distinct
    [audits] keys, [JSON.parse] of the file's contents is deep-equal to the
    tree. *)
Theorem json_file_reads_back gh fp (r : Results) (path : string) (w : World) :
  finite_numbers r = true ->
  distinct (map fst (audits r)) = true ->
  truthy path = true ->
  path <> "stdout" ->
  (forall data : string, fs_error w path data = None) ->
  exists (text : string) (v : jsvalue),
    file_contents (files (snd (write gh fp r "json" path w))) path = Some text
    /\ JSON.parse text = Some v
    /\ deep_equal v (value_of_Results r) = true.
Proof.
  intros Hfin Hkeys Hpath Hfile Hfs.
  pose proof (serializable_Results r Hfin Hkeys) as Hs.
  exists (stringify2 (value_of_Results r)), (normal (value_of_Results r)).
  split; [|split; [apply parse_stringify2, Hs | apply deep_equal_normal, Hs]].
  unfold write, checkOutputPath. rewrite Hpath. cbn [negb].
  change (createOutput gh fp r (OutputMode_get "json"))
    with (Normal (A := string) (stringify2 (value_of_Results r))).
  cbv iota beta.
  destruct (String.eqb_spec path "stdout") as [Heq|_]; [contradiction|].
  unfold writeFile, fs_writeFile. rewrite Hfs. cbn.
  rewrite String.eqb_refl. reflexivity.
Qed.

Lemma json_file_reads_back_witness :
  exists (text : string) (v : jsvalue),
    file_contents
      (files (snd (write no_report no_formatter minimal_results "json"
                     "out.json" empty_world))) "out.json" = Some text
    /\ JSON.parse text = Some v
    /\ deep_equal v (value_of_Results minimal_results) = true.
Proof.
  apply (json_file_reads_back no_report no_formatter minimal_results
           "out.json" empty_world eq_refl eq_refl eq_refl);
    [discriminate | reflexivity].
Defined.

(** X13.  The json report written to standard output is read back from
    there: what [write] adds to standard output, the report and its line
    feed, is JSON text, and for a tree with finite numbers and distinct
    [audits] keys [JSON.parse] of it is deep-equal to the tree. *)
Theorem json_stdout_reads_back gh fp (r : Results) (w : World) :
  finite_numbers r = true ->
  distinct (map fst (audits r)) = true ->
  exists (text : string) (v : jsvalue),
    stdout (snd (write gh fp r "json" "" w)) = stdout w ++ text
    /\ JSON.parse text = Some v
    /\ deep_equal v (value_of_Results r) = true.
Proof.
  intros Hfin Hkeys.
  pose proof (serializable_Results r Hfin Hkeys) as Hs.
  exists (stringify2 (value_of_Results r) ++ LF),
    (normal (value_of_Results r)).
  split; [reflexivity|].
  split; [apply parse_stringify2_line, Hs | apply deep_equal_normal, Hs].
Qed.

Lemma json_stdout_reads_back_witness :
  exists (text : string) (v : jsvalue),
    stdout (snd (write no_report no_formatter minimal_results "json" ""
                   empty_world)) = stdout empty_world ++ text
    /\ JSON.parse text = Some v
    /\ deep_equal v (value_of_Results minimal_results) = true.
Proof.
  exact (json_stdout_reads_back no_report no_formatter minimal_results
           empty_world eq_refl eq_refl).
Defined.
